(** * cfg-watcher: the reconciliation engine and the ConfigMap driver

    A shallow embedding of [ConfigContentWatcher] (src/ConfigContentWatcher.ts)
    and of the snapshot diff of [ConfigMapWatcher] (ConfigWatcher.ts), with the
    properties of the reconciliation engine stated and proved over it.

    Modelling conventions.
    - A table is the list of the own entries of an object or of a [Map]
      in enumeration order.  The driver's [Map] keeps the order of
      insertion ([Table.set]); the [data] and [binaryData] tables of a
      ConfigMap are inputs, only read with [hasOwnProperty] and [for in].
      The engine's state is a plain object built by spread and rest:
      reading [state[id]] also finds the properties inherited from
      [Object.prototype] ([Obj.read]), and the own keys that are array
      indices are enumerated first, in ascending numeric order
      ([Obj.set]).
    - The rxjs pipeline is synchronous: [withLatestFrom(state$)] hands the
      [map] stage the value of [_state$] at the moment the file change
      arrives, the whole action array is computed from that snapshot, and
      only then does [mergeMap] feed the actions one by one to [tap].
    - [_state$.next] and [_changes$.next] are the observable effects; they
      are recorded, in order, in an emission trace. *)

From Stdlib Require Import List Ascii String Bool Arith NArith ZArith Lia.
Import ListNotations.
Local Open Scope string_scope.
Local Open Scope list_scope.

(* ================================================================== *)
(** * Part I: definitions                                              *)
(* ================================================================== *)

(** ** Ordered tables with string keys *)

Module Table.

Definition t (V : Type) : Type := list (string * V).

Section Ops.
Context {V : Type}.

Definition empty : t V := [].

(** The own property [k] of an object, [Map.prototype.get]. *)
Fixpoint get (k : string) (o : t V) : option V :=
  match o with
  | [] => None
  | (k', v) :: rest => if k' =? k then Some v else get k rest
  end.

(** [Object.prototype.hasOwnProperty.call(o, k)], [Map.prototype.has]. *)
Definition has (k : string) (o : t V) : bool :=
  match get k o with Some _ => true | None => false end.

(** [Map.prototype.set]: a present key keeps its place, a new key is
    appended.  For a plain object see [Obj.set]. *)
Fixpoint set (k : string) (v : V) (o : t V) : t V :=
  match o with
  | [] => [(k, v)]
  | (k', v') :: rest =>
      if k' =? k then (k, v) :: rest else (k', v') :: set k v rest
  end.

(** [const { [k]: _, ...rest } = o], [Map.prototype.delete]. *)
Fixpoint delete (k : string) (o : t V) : t V :=
  match o with
  | [] => []
  | (k', v') :: rest =>
      if k' =? k then delete k rest else (k', v') :: delete k rest
  end.

Definition keys (o : t V) : list string := map fst o.

(** [Object.values(o)]. *)
Definition values (o : t V) : list V := map snd o.

(** Keys of an object are pairwise distinct. *)
Definition wf (o : t V) : Prop := NoDup (keys o).

End Ops.

End Table.

(** ** Plain objects: inherited properties and the order of own keys *)

Module Obj.

(** The properties every plain object inherits from [Object.prototype]
    (ECMAScript, with the accessors of its Annex B). *)
Definition prototypeKeys : list string :=
  ["constructor"; "hasOwnProperty"; "isPrototypeOf"; "propertyIsEnumerable";
   "toLocaleString"; "toString"; "valueOf"; "__proto__";
   "__defineGetter__"; "__defineSetter__"; "__lookupGetter__";
   "__lookupSetter__"].

Definition inherited (k : string) : bool :=
  existsb (String.eqb k) prototypeKeys.

(** What [o[k]] evaluates to: an own value, the value inherited under [k]
    (a function, or [Object.prototype] itself for [__proto__]), or
    [undefined]. *)
Inductive Value (V : Type) : Type :=
| Own (v : V)
| Inherited (k : string)
| Undefined.

Arguments Own {V} v.
Arguments Inherited {V} k.
Arguments Undefined {V}.

(** [o[k]], and the [k] part of [const { [k]: x, ...rest } = o]. *)
Definition read {V} (k : string) (o : Table.t V) : Value V :=
  match Table.get k o with
  | Some v => Own v
  | None => if inherited k then Inherited k else Undefined
  end.

(** Own and inherited values are objects or functions, hence truthy. *)
Definition truthy {V} (x : Value V) : bool :=
  match x with
  | Undefined => false
  | _ => true
  end.

Definition digit (c : ascii) : option N :=
  let n := N_of_ascii c in
  if ((48 <=? n) && (n <=? 57))%N then Some (n - 48)%N else None.

Fixpoint decimal (acc : N) (s : string) : option N :=
  match s with
  | EmptyString => Some acc
  | String c rest =>
      match digit c with
      | Some d => decimal (acc * 10 + d)%N rest
      | None => None
      end
  end.

(** A key is an array index when it is the canonical decimal text of an
    integer from 0 to 2^32 - 2. *)
Definition arrayIndex (k : string) : option N :=
  match k with
  | EmptyString => None
  | String c rest =>
      match digit c with
      | Some 0%N => if rest =? "" then Some 0%N else None
      | Some _ =>
          match decimal 0 k with
          | Some n => if (n <=? 4294967294)%N then Some n else None
          | None => None
          end
      | None => None
      end
  end.

(** A new key [k] is enumerated before the own key [k']: array indices
    in ascending order, then the other keys in the order of creation. *)
Definition before (k k' : string) : bool :=
  match arrayIndex k, arrayIndex k' with
  | Some n, Some n' => (n <? n')%N
  | Some _, None => true
  | None, _ => false
  end.

(** [{ ...o, [k]: v }] for a plain object: a present key keeps its
    place, a new key takes the place its enumeration order gives it. *)
Fixpoint set {V} (k : string) (v : V) (o : Table.t V) : Table.t V :=
  match o with
  | [] => [(k, v)]
  | (k', v') :: rest =>
      if k' =? k then (k, v) :: rest
      else if before k k' && negb (Table.has k rest)
           then (k, v) :: (k', v') :: rest
           else (k', v') :: set k v rest
  end.

(** The enumeration order of a plain object: the array indices in
    ascending order, then the other keys. *)
Fixpoint ordered (keys : list string) : Prop :=
  match keys with
  | [] => True
  | k :: rest => (forall k', In k' rest -> before k' k = false) /\ ordered rest
  end.

End Obj.

(** ** Data model of the engine *)

(** What the engine needs from the payload type [T]: the caller-supplied
    identity function and [fast-deep-equal], which decides structural
    equality of payloads. *)
Class Item (T : Type) := {
  getId : T -> string;
  equal : T -> T -> bool;
  equal_spec : forall a b : T, equal a b = true <-> a = b
}.

(** The external collaborators of the validation pipeline:
    [String.prototype.trim], [yaml.loadAll] ([inl msg] when it throws) and
    [validator.validate(item, schema).valid]. *)
Class Pipeline (T : Type) := {
  trim : string -> string;
  loadAll : string -> string + list T;
  validate : T -> bool
}.

Inductive ChangeType := TAdd | TUpdate | TRemove.

Record ConfigFileChange := {
  change_type : ChangeType;
  change_filename : string;
  change_content : option string
}.

Definition isRemove (ty : ChangeType) : bool :=
  match ty with TRemove => true | _ => false end.

Section Engine.

Context {T : Type} `{Item T}.

Record ConfigSet := { filename : string; obj : T }.

Inductive ConfigSetAction :=
| Add (id : string) (item : ConfigSet)
| Update (id : string) (item : ConfigSet)
| Remove (id : string)
| Moved (id : string) (item : ConfigSet).

Definition actionId (a : ConfigSetAction) : string :=
  match a with
  | Add id _ | Update id _ | Remove id | Moved id _ => id
  end.

Definition aboutId (k : string) (a : ConfigSetAction) : bool :=
  actionId a =? k.

(** The value held by [_state$]. *)
Definition State := Table.t ConfigSet.

(** [ValidationResult<T>]: either the item list or the error, each with
    the filename. *)
Inductive ValidationResult :=
| Valid (vr_filename : string) (vr_data : list T)
| Invalid (vr_filename : string) (vr_error : string).

(** Calls of [next] on the two subjects, in program order. *)
Inductive Emission :=
| StateNext (s : State)
| ChangesNext (a : ConfigSetAction).

(** *** The effect monad of the engine

    A computation reads and replaces the value of [_state$] and appends
    to the emission trace. *)
Definition Eff (A : Type) : Type := State -> A * State * list Emission.

Definition ret {A} (a : A) : Eff A := fun s => (a, s, []).

Definition bind {A B} (m : Eff A) (f : A -> Eff B) : Eff B :=
  fun s =>
    let '(a, s1, o1) := m s in
    let '(b, s2, o2) := f a s1 in
    (b, s2, o1 ++ o2).

Definition getState : Eff State := fun s => (s, s, []).

Definition stateNext (s' : State) : Eff unit :=
  fun _ => (tt, s', [StateNext s']).

Definition changesNext (a : ConfigSetAction) : Eff unit :=
  fun s => (tt, s, [ChangesNext a]).

Fixpoint forEach {A} (f : A -> Eff unit) (l : list A) : Eff unit :=
  match l with
  | [] => ret tt
  | x :: rest => bind (f x) (fun _ => forEach f rest)
  end.

Definition stateAfter {A} (m : Eff A) (s : State) : State := snd (fst (m s)).
Definition resultOf {A} (m : Eff A) (s : State) : A := fst (fst (m s)).
Definition traceOf {A} (m : Eff A) (s : State) : list Emission := snd (m s).

(** The actions published on [changes$], in order. *)
Fixpoint actionsOf (tr : list Emission) : list ConfigSetAction :=
  match tr with
  | [] => []
  | ChangesNext a :: rest => a :: actionsOf rest
  | StateNext _ :: rest => actionsOf rest
  end.

(** *** State mutation interface *)

(** [addOrUpdateSet]; [None] is a null or undefined argument, and the
    result [None] is [null]. *)
Definition addOrUpdateSet (cfgSet : option ConfigSet) : Eff (option ConfigSet) :=
  match cfgSet with
  | None => ret None
  | Some cs =>
      let id := getId (obj cs) in
      bind getState (fun state =>
        bind (if Table.has id state
              then stateNext (Obj.set id cs state)
              else stateNext (Obj.set id cs state))
             (fun _ => ret (Some cs)))
  end.

(** [removeSet].  The only falsy string is the empty one; the
    destructuring reads [this.state[id]], inherited properties included,
    and [rest] holds the own properties other than [id]. *)
Definition removeSet (id : string) : Eff (Obj.Value ConfigSet) :=
  if id =? "" then ret Obj.Undefined
  else
    bind getState (fun state =>
      let removedCfgSet := Obj.read id state in
      let rest := Table.delete id state in
      bind (if Obj.truthy removedCfgSet then stateNext rest else ret tt)
           (fun _ => ret removedCfgSet)).

(** *** Computing the actions of a file event *)

Fixpoint getIndexOfIdFrom (index : Z) (existingId : string) (arr : list T) : Z :=
  match arr with
  | [] => (-1)%Z
  | item :: rest =>
      if getId item =? existingId then index
      else getIndexOfIdFrom (index + 1)%Z existingId rest
  end.

Definition getIndexOfId (existingId : string) (arr : list T) : Z :=
  getIndexOfIdFrom 0%Z existingId arr.

Definition stateArrayForFile (state : State) (F : string) : list ConfigSet :=
  filter (fun cfgSet => filename cfgSet =? F) (Table.values state).

(** Body of the first loop of the add/update stage. *)
Definition vanishedAction (data : list T) (existingSet : ConfigSet)
  : list ConfigSetAction :=
  let existingId := getId (obj existingSet) in
  let newIndex := getIndexOfId existingId data in
  if (newIndex =? -1)%Z then [Remove existingId] else [].

(** Body of the second loop of the add/update stage.  [state[id]] is
    read with the inherited properties; an inherited value is truthy and
    has no [obj] property, and [undefined] is deep-equal to no item, so the
    first test of the [else] branch succeeds for it. *)
Definition itemActions (state : State) (F : string) (newItem : T)
  : list ConfigSetAction :=
  let id := getId newItem in
  match Obj.read id state with
  | Obj.Undefined => [Add id {| filename := F; obj := newItem |}]
  | Obj.Own existingSet =>
      if negb (equal (obj existingSet) newItem) then
        [Update id {| filename := F; obj := newItem |}]
      else if negb (filename existingSet =? F) then
        [Moved id {| filename := F; obj := obj existingSet |}]
      else []
  | Obj.Inherited _ => [Update id {| filename := F; obj := newItem |}]
  end.

(** The [map] stage of [updateConfigFile$]. *)
Definition updateConfigFile (F : string) (data : list T) (state : State)
  : list ConfigSetAction :=
  flat_map (vanishedAction data) (stateArrayForFile state F)
  ++ flat_map (itemActions state F) data.

(** The [map] stage of [removeConfigFile$]. *)
Definition removeConfigFile (F : string) (state : State)
  : list ConfigSetAction :=
  map (fun existingSet => Remove (getId (obj existingSet)))
      (stateArrayForFile state F).

(** The [tap] stage of [configFileChanges$]. *)
Definition tap (action : ConfigSetAction) : Eff unit :=
  match action with
  | Add _ item | Update _ item | Moved _ item =>
      bind (addOrUpdateSet (Some item)) (fun _ => changesNext action)
  | Remove id =>
      bind (removeSet id) (fun _ => changesNext action)
  end.

(** *** Validation *)

Context `{Pipeline T}.

Definition formattingError (F : string) : string :=
  ("Config file " ++ F ++ ": has formatting errors (see above).")%string.

(** The validation loop: [None] when every item is valid, otherwise the
    message of the error thrown at the first invalid item. *)
Fixpoint validateItems (F : string) (data : list T) : option string :=
  match data with
  | [] => None
  | item :: rest =>
      if validate item then validateItems F rest
      else Some (formattingError F)
  end.

Definition isBlank (content : option string) : bool :=
  match content with
  | None => true
  | Some c => trim c =? ""
  end.

Definition validateConfigFile (fileChange : ConfigFileChange) : ValidationResult :=
  let F := change_filename fileChange in
  let parsed :=
    if isBlank (change_content fileChange) then inr []
    else match change_content fileChange with
         | Some c => loadAll c
         | None => inr []
         end in
  match parsed with
  | inl err => Invalid F err
  | inr data =>
      match validateItems F data with
      | Some err => Invalid F err
      | None => Valid F data
      end
  end.

(** *** The engine *)

(** A file event as the reconciliation stages see it: a validated item
    list of an add/update notification, or a file removal. *)
Inductive FileEvent :=
| Validated (F : string) (data : list T)
| Removed (F : string).

Definition reconcile (ev : FileEvent) : Eff unit :=
  bind getState (fun state =>
    match ev with
    | Validated F data => forEach tap (updateConfigFile F data state)
    | Removed F => forEach tap (removeConfigFile F state)
    end).

(** One notification of [watcher.fileChange$] through the whole pipeline
    set up by [onInit]. *)
Definition onFileChange (fileChange : ConfigFileChange) : Eff unit :=
  if isRemove (change_type fileChange) then
    reconcile (Removed (change_filename fileChange))
  else
    match validateConfigFile fileChange with
    | Invalid _ _ => ret tt
    | Valid F data => reconcile (Validated F data)
    end.

Definition processAll (evs : list FileEvent) : Eff unit :=
  forEach reconcile evs.

End Engine.

Arguments ConfigSet T : clear implicits.
Arguments ConfigSetAction T : clear implicits.
Arguments State T : clear implicits.
Arguments ValidationResult T : clear implicits.
Arguments Emission T : clear implicits.
Arguments FileEvent T : clear implicits.

(** ** Reference notions used to state the engine's properties *)

Section Reference.

Context {T : Type} `{Item T}.

(** A state as the engine builds it: one entry per key, each stored
    under the identity of its own payload. *)
Definition wfState (st : State T) : Prop :=
  Table.wf st /\ forall k e, In (k, e) st -> getId (obj e) = k.

Definition declaresId (k : string) (data : list T) : bool :=
  existsb (fun n => getId n =? k) data.

(** The item a list declares under identity [k]. *)
Definition declaredItem (k : string) (data : list T) : option T :=
  find (fun n => getId n =? k) data.

Definition distinctIds (data : list T) : Prop := NoDup (map getId data).

(** The files that currently exist with the item list each one holds,
    ordered by the time of the file's last event: the latest is last. *)
Definition fileEventStep (files : Table.t (list T)) (ev : FileEvent T)
  : Table.t (list T) :=
  match ev with
  | Validated F data => Table.delete F files ++ [(F, data)]
  | Removed F => Table.delete F files
  end.

Definition currentFiles (evs : list (FileEvent T)) : Table.t (list T) :=
  fold_left fileEventStep evs [].

(** Scanning from the oldest file to the latest, the last file whose
    list declares [k], with that list. *)
Fixpoint latestDeclaring (k : string) (files : Table.t (list T))
  : option (string * list T) :=
  match files with
  | [] => None
  | (F, data) :: rest =>
      match latestDeclaring k rest with
      | Some r => Some r
      | None => if declaresId k data then Some (F, data) else None
      end
  end.

(** What the claim calls the item most recently validated under [k]
    among the files that still declare [k], with that file. *)
Definition mostRecentlyValidated (k : string) (evs : list (FileEvent T))
  : option (ConfigSet T) :=
  match latestDeclaring k (currentFiles evs) with
  | Some (F, data) =>
      match declaredItem k data with
      | Some n => Some {| filename := F; obj := n |}
      | None => None
      end
  | None => None
  end.

Definition eventFile (ev : FileEvent T) : string :=
  match ev with
  | Validated F _ | Removed F => F
  end.

Definition eventItems (ev : FileEvent T) : list T :=
  match ev with
  | Validated _ data => data
  | Removed _ => []
  end.

(** The mutation of the state that belongs to an action. *)
Definition mutationOf (a : ConfigSetAction T) (s : State T) : State T :=
  match a with
  | Add _ item | Update _ item | Moved _ item =>
      Obj.set (getId (obj item)) item s
  | Remove id => Table.delete id s
  end.

(** A trace in which every action is published right after its own
    mutation of the state and nothing else happens, starting from the
    state [s]. *)
Fixpoint committedInOrder (s : State T) (tr : list (Emission T)) : Prop :=
  match tr with
  | [] => True
  | StateNext s' :: ChangesNext a :: rest =>
      s' = mutationOf a s /\ committedInOrder s' rest
  | _ => False
  end.

(** Number of actions of a list that concern identity [k]. *)
Definition actionsAbout (k : string) (acts : list (ConfigSetAction T)) : nat :=
  List.length (filter (aboutId k) acts).

Definition isRemoveAction (a : ConfigSetAction T) : bool :=
  match a with Remove _ => true | _ => false end.

(** The entries of a state filed under [F]. *)
Definition trackedUnder (F : string) (st : State T) : list (string * ConfigSet T) :=
  filter (fun p => filename (snd p) =? F) st.

(** The state [tap] leaves behind for one action, and for a list of
    actions fed to it in order. *)
Definition commit (a : ConfigSetAction T) (s : State T) : State T :=
  match a with
  | Remove id => if id =? "" then s else Table.delete id s
  | _ => mutationOf a s
  end.

Definition commitAll (acts : list (ConfigSetAction T)) (s : State T) : State T :=
  fold_left (fun s a => commit a s) acts s.

(** Every [Remove] of the list names a non-empty identity that the state
    holds when the action's turn comes. *)
Fixpoint effective (s : State T) (acts : list (ConfigSetAction T)) : Prop :=
  match acts with
  | [] => True
  | a :: rest =>
      match a with
      | Remove id => id <> "" /\ Table.get id s <> None
      | _ => True
      end /\ effective (commit a s) rest
  end.

(** The entries filed under [F] whose identity the list [data] no longer
    declares. *)
Definition vanishingUnder (F : string) (data : list T) (st : State T)
  : list (string * ConfigSet T) :=
  filter (fun p => negb (declaresId (fst p) data)) (trackedUnder F st).

End Reference.

(** ** The ConfigMap driver *)

Module Driver.

Inductive Phase := ADDED | MODIFIED | DELETED | BOOKMARK | ERROR.

Record V1ConfigMap := {
  data : option (Table.t string);
  binaryData : option (Table.t string)
}.

Record WatchEvent := { phase : Phase; apiObj : option V1ConfigMap }.

(** [_fileStore]. *)
Definition FileStore := Table.t string.

Definition contentEq (a b : option string) : bool :=
  match a, b with
  | Some x, Some y => x =? y
  | None, None => true
  | _, _ => false
  end.

Definition fileChange (ty : ChangeType) (f : string) (c : option string)
  : ConfigFileChange :=
  {| change_type := ty; change_filename := f; change_content := c |}.

Section Diff.

(** [Buffer.from(s, 'base64').toString('utf8')]. *)
Variable base64Decode : string -> string.

(** Body of the [for (const filename in table)] loop; [decode] is the
    identity for [data] and the base64 decoding for [binaryData]. *)
Definition syncEntry (decode : string -> string)
    (acc : list ConfigFileChange * FileStore) (entry : string * string)
  : list ConfigFileChange * FileStore :=
  let '(fileChanges, store) := acc in
  let '(filename, raw) := entry in
  let content := decode raw in
  if negb (Table.has filename store) then
    (fileChanges ++ [fileChange TAdd filename (Some content)],
     Table.set filename content store)
  else
    let oldContent := Table.get filename store in
    if negb (contentEq oldContent (Some content)) then
      (fileChanges ++ [fileChange TUpdate filename (Some content)],
       Table.set filename content store)
    else acc.

(** Body of the [for (const [filename, _] of this._fileStore)] loop. *)
Definition pruneEntry (table : Table.t string)
    (acc : list ConfigFileChange * FileStore) (filename : string)
  : list ConfigFileChange * FileStore :=
  let '(fileChanges, store) := acc in
  if negb (Table.has filename table) then
    (fileChanges ++ [fileChange TRemove filename None],
     Table.delete filename store)
  else acc.

(** One guarded block of the ADDED/MODIFIED handler. *)
Definition diffTable (decode : string -> string)
    (table : option (Table.t string))
    (acc : list ConfigFileChange * FileStore)
  : list ConfigFileChange * FileStore :=
  match table with
  | Some tbl =>
      if (0 <? List.length (Table.keys tbl))%nat then
        let acc1 := fold_left (syncEntry decode) tbl acc in
        fold_left (pruneEntry tbl) (Table.keys (snd acc1)) acc1
      else acc
  | None => acc
  end.

(** The [map] stage of [addedModifiedConfigMap$]. *)
Definition addedModifiedConfigMap (event : WatchEvent) (store : FileStore)
  : list ConfigFileChange * FileStore :=
  let acc0 := ([], store) in
  let acc1 :=
    diffTable (fun s => s)
              (match apiObj event with Some o => data o | None => None end)
              acc0 in
  diffTable base64Decode
            (match apiObj event with Some o => binaryData o | None => None end)
            acc1.

(** The [map] stage of [removedConfigMap$]. *)
Definition removedConfigMap (store : FileStore)
  : list ConfigFileChange * FileStore :=
  (map (fun filename => fileChange TRemove filename None) (Table.keys store),
   Table.empty).

(** One watch event through the driver. *)
Definition onWatchEvent (event : WatchEvent) (store : FileStore)
  : list ConfigFileChange * FileStore :=
  match phase event with
  | ADDED | MODIFIED => addedModifiedConfigMap event store
  | DELETED => removedConfigMap store
  | _ => ([], store)
  end.

End Diff.

(** The notifications of a list that concern one filename. *)
Definition changesFor (f : string) (changes : list ConfigFileChange)
  : list ConfigFileChange :=
  filter (fun c => change_filename c =? f) changes.

(** The single table of a snapshot that uses only [data] or only
    [binaryData], with decoded contents. *)
Definition decoded (decode : string -> string) (tbl : Table.t string)
  : Table.t string :=
  map (fun p => (fst p, decode (snd p))) tbl.

Definition isEmptyTable (o : option (Table.t string)) : bool :=
  match o with
  | None => true
  | Some tbl => match tbl with [] => true | _ => false end
  end.

(** The notifications about [f] that the diff of the previous content
    [old] against the new content [new] of [f] calls for. *)
Definition expectedChanges (f : string) (old new : option string)
  : list ConfigFileChange :=
  match old, new with
  | None, Some c => [fileChange TAdd f (Some c)]
  | Some o, Some c => if o =? c then [] else [fileChange TUpdate f (Some c)]
  | Some _, None => [fileChange TRemove f None]
  | None, None => []
  end.

(** What the first loop of a block publishes about [f]. *)
Definition synced (f : string) (old new : option string)
  : list ConfigFileChange :=
  match new with
  | Some c => expectedChanges f old (Some c)
  | None => []
  end.

Definition tableOf (o : option (Table.t string)) : Table.t string :=
  match o with Some tbl => tbl | None => [] end.

(** The files of a resource snapshot: those of [data], then those of
    [binaryData] with their decoded content. *)
Definition snapshotOf (decode : string -> string) (event : WatchEvent)
  : Table.t string :=
  match apiObj event with
  | Some o => tableOf (data o) ++ decoded decode (tableOf (binaryData o))
  | None => []
  end.

(** The snapshot keeps its files in exactly one of the two tables. *)
Definition usesOneTable (event : WatchEvent) : bool :=
  match apiObj event with
  | Some o => xorb (isEmptyTable (data o)) (isEmptyTable (binaryData o))
  | None => false
  end.

Definition isAddedOrModified (p : Phase) : bool :=
  match p with ADDED | MODIFIED => true | _ => false end.

End Driver.

(** ** A concrete payload type: documents [{id, val}] *)

Module Sample.

Record Doc := { doc_id : string; doc_val : nat }.

Definition doc_equal (a b : Doc) : bool :=
  (doc_id a =? doc_id b) && Nat.eqb (doc_val a) (doc_val b).

Definition doc (i : string) (v : nat) : Doc := {| doc_id := i; doc_val := v |}.

#[export] Instance docItem : Item Doc.
Proof.
  refine {| getId := doc_id; equal := doc_equal |}.
  intros [ia va] [ib vb]. unfold doc_equal. simpl.
  rewrite andb_true_iff, String.eqb_eq, Nat.eqb_eq.
  split; [intros [-> ->]; reflexivity | intros [= -> ->]; auto].
Defined.

(** A stand-in for the external collaborators: no trimming, a loader
    that rejects the text [{] and otherwise reads a single document whose
    identity is the text, and a schema that asks for a positive value. *)
#[export] Instance docPipeline : Pipeline Doc := {|
  trim := fun s => s;
  loadAll := fun s =>
    if s =? "{" then inl "YAMLException" else inr [doc s (String.length s)];
  validate := fun d => Nat.ltb 1 (doc_val d)
|}.

Definition entry (i F : string) (v : nat) : string * ConfigSet Doc :=
  (i, {| filename := F; obj := doc i v |}).

(** [x] in [a.yaml] and [y] in [b.yaml]. *)
Definition twoFiles : State Doc := [entry "x" "a.yaml" 1; entry "y" "b.yaml" 7].

(** A document with the empty identity, added from [a.yaml]. *)
Definition emptyIdentity : State Doc := [entry "" "a.yaml" 1].

(** The second scenario of the specification: [y] moves from [b.yaml]
    to [c.yaml] and the removal of [b.yaml] is seen last. *)
Definition moveScenario : list (FileEvent Doc) :=
  [Validated "b.yaml" [doc "y" 7]; Validated "c.yaml" [doc "y" 7];
   Removed "b.yaml"].

(** A file whose only document has the empty identity, added and then
    removed. *)
Definition ghostScenario : list (FileEvent Doc) :=
  [Validated "a.yaml" [doc "" 1]; Removed "a.yaml"].

(** Two documents of one file with the same identity. *)
Definition twins : list Doc := [doc "x" 1; doc "x" 2].

(** Notifications for the stand-in pipeline: a text that does not parse,
    a document the schema rejects, an accepted document, a removal. *)
Definition unparsable : ConfigFileChange :=
  {| change_type := TUpdate; change_filename := "a.yaml";
     change_content := Some "{" |}.

Definition invalidItem : ConfigFileChange :=
  {| change_type := TAdd; change_filename := "b.yaml";
     change_content := Some "x" |}.

Definition movedIn : ConfigFileChange :=
  {| change_type := TAdd; change_filename := "c.yaml";
     change_content := Some "xy" |}.

Definition removedA : ConfigFileChange :=
  {| change_type := TRemove; change_filename := "a.yaml";
     change_content := None |}.

Definition modified (d b : option (Table.t string)) : Driver.WatchEvent :=
  {| Driver.phase := Driver.MODIFIED;
     Driver.apiObj := Some {| Driver.data := d; Driver.binaryData := b |} |}.

End Sample.

(** ** The notification stream as a subscriber sees it *)

Module Stream.

(** A subscriber that mirrors the files from the notifications alone: an
    [add] must bring a filename it does not hold, an [update] a content
    other than the one it holds, a [remove] a filename it holds; [content]
    is a string for [add] and [update] and [null] for [remove].  [None]
    when a notification breaks this. *)
Definition applyChange (files : Table.t string) (c : ConfigFileChange)
  : option (Table.t string) :=
  let f := change_filename c in
  match change_type c, change_content c with
  | TAdd, Some content =>
      if Table.has f files then None else Some (Table.set f content files)
  | TUpdate, Some content =>
      match Table.get f files with
      | Some old => if old =? content then None
                    else Some (Table.set f content files)
      | None => None
      end
  | TRemove, None =>
      if Table.has f files then Some (Table.delete f files) else None
  | _, _ => None
  end.

Fixpoint replay (files : Table.t string) (changes : list ConfigFileChange)
  : option (Table.t string) :=
  match changes with
  | [] => Some files
  | c :: rest =>
      match applyChange files c with
      | Some files' => replay files' rest
      | None => None
      end
  end.

(** The ConfigMap driver over a sequence of watch events: the
    notifications pushed to [fileChange$], in order, and the store. *)
Fixpoint configMapStream (base64Decode : string -> string)
    (events : list Driver.WatchEvent) (store : Driver.FileStore)
  : list ConfigFileChange * Driver.FileStore :=
  match events with
  | [] => ([], store)
  | event :: rest =>
      let '(changes, store1) := Driver.onWatchEvent base64Decode event store in
      let '(later, store2) := configMapStream base64Decode rest store1 in
      (changes ++ later, store2)
  end.

End Stream.

(** ** The file-system driver *)

Module FileDriver.

Record ConfigFile := { filename : string; content : string }.

(** What reaches the two [map] stages of [ConfigFileWatcher.onInit]: a
    file whose content has been read after an [add] or [change] event, or
    the basename of an [unlink] event. *)
Inductive Settled :=
| FileRead (cfgFile : ConfigFile)
| Unlinked (basename : string).

(** The last [map] stage of [addedModifiedConfigFile$]; [None] is [null]. *)
Definition addedModifiedConfigFile (cfgFile : ConfigFile)
    (store : Driver.FileStore)
  : option ConfigFileChange * Driver.FileStore :=
  if negb (Table.has (filename cfgFile) store) then
    (Some (Driver.fileChange TAdd (filename cfgFile) (Some (content cfgFile))),
     Table.set (filename cfgFile) (content cfgFile) store)
  else
    let oldContent := Table.get (filename cfgFile) store in
    if negb (Driver.contentEq oldContent (Some (content cfgFile))) then
      (Some (Driver.fileChange TUpdate (filename cfgFile)
                               (Some (content cfgFile))),
       Table.set (filename cfgFile) (content cfgFile) store)
    else (None, store).

(** The [map] stage of [removedConfigFile$]. *)
Definition removedConfigFile (basename : string) (store : Driver.FileStore)
  : option ConfigFileChange * Driver.FileStore :=
  if Table.has basename store then
    (Some (Driver.fileChange TRemove basename None),
     Table.delete basename store)
  else (None, store).

Definition onSettled (input : Settled) (store : Driver.FileStore)
  : option ConfigFileChange * Driver.FileStore :=
  match input with
  | FileRead cfgFile => addedModifiedConfigFile cfgFile store
  | Unlinked basename => removedConfigFile basename store
  end.

(** [merge], [filter(inputIsNotNullOrUndefined)] and the [tap] that
    pushes to [fileChange$], over a sequence of inputs. *)
Fixpoint fileStream (inputs : list Settled) (store : Driver.FileStore)
  : list ConfigFileChange * Driver.FileStore :=
  match inputs with
  | [] => ([], store)
  | input :: rest =>
      let '(change, store1) := onSettled input store in
      let '(later, store2) := fileStream rest store1 in
      (match change with Some c => c :: later | None => later end, store2)
  end.

End FileDriver.

(** ** Traces in which some actions go without a mutation *)

Section TraceShape.

Context {T : Type} `{Item T}.

(** Starting from the state [s]: a state is published only right before
    an action, and it is the state the mutation of that action makes; an
    action published with no state before it is a [Remove] whose identity
    is empty or not held by the state, which stays as it is. *)
Fixpoint publishedInOrder (s : State T) (tr : list (Emission T)) : Prop :=
  match tr with
  | [] => True
  | StateNext s' :: ChangesNext a :: rest =>
      s' = mutationOf a s /\ publishedInOrder s' rest
  | ChangesNext a :: rest =>
      match a with
      | Remove id => id = "" \/ Table.get id s = None
      | _ => False
      end /\ publishedInOrder s rest
  | StateNext _ :: _ => False
  end.

End TraceShape.

(** ** More concrete inputs *)

Module Cases.

Import Sample.

(** The ConfigMap of the driver scenarios, first with its files in
    [data], then with files in both tables. *)
Definition inData : Driver.WatchEvent :=
  modified (Some [("a", "1"); ("b", "9"); ("d", "4")]) None.

Definition inBoth : Driver.WatchEvent :=
  modified (Some [("a", "1"); ("e", "5")]) (Some [("b", "Mg==")]).

Definition deleted : Driver.WatchEvent :=
  {| Driver.phase := Driver.DELETED; Driver.apiObj := None |}.

Definition threeFiles : Driver.FileStore := [("a", "1"); ("b", "2"); ("c", "3")].

Definition blankUpdate : ConfigFileChange :=
  {| change_type := TUpdate; change_filename := "a.yaml";
     change_content := None |}.

End Cases.

(* ================================================================== *)
(** * Part II: properties                                              *)
(* ================================================================== *)

(** ** Ordered tables *)

Section TableFacts.

Context {V : Type}.
Implicit Types (o : Table.t V) (k : string) (v : V).

Lemma eqb_false_ne (a b : string) : a <> b -> (a =? b) = false.
Proof. intro Hne. now apply String.eqb_neq. Qed.

Lemma get_set_same k v o : Table.get k (Table.set k v o) = Some v.
Proof.
  induction o as [|[k' v'] rest IH]; simpl.
  - now rewrite String.eqb_refl.
  - destruct (k' =? k) eqn:E; simpl.
    + now rewrite String.eqb_refl.
    + now rewrite E.
Qed.

Lemma get_set_other k k' v o :
  k <> k' -> Table.get k' (Table.set k v o) = Table.get k' o.
Proof.
  intro Hne. induction o as [|[k0 v0] rest IH]; simpl.
  - now rewrite (eqb_false_ne k k').
  - destruct (k0 =? k) eqn:E; simpl.
    + apply String.eqb_eq in E. subst k0.
      now rewrite (eqb_false_ne k k').
    + destruct (k0 =? k'); auto.
Qed.

Lemma get_delete_same k o : Table.get k (Table.delete k o) = None.
Proof.
  induction o as [|[k' v'] rest IH]; simpl; auto.
  destruct (k' =? k) eqn:E; simpl; auto. now rewrite E.
Qed.

Lemma get_delete_other k k' o :
  k <> k' -> Table.get k' (Table.delete k o) = Table.get k' o.
Proof.
  intro Hne. induction o as [|[k0 v0] rest IH]; simpl; auto.
  destruct (k0 =? k) eqn:E; simpl.
  - apply String.eqb_eq in E. subst k0.
    now rewrite (eqb_false_ne k k').
  - destruct (k0 =? k'); auto.
Qed.

(** [delete] keeps exactly the entries stored under another key. *)
Lemma delete_filter k o :
  Table.delete k o = filter (fun p => negb (fst p =? k)) o.
Proof.
  induction o as [|[k' v'] rest IH]; simpl; auto.
  destruct (k' =? k); simpl; now rewrite IH.
Qed.

Lemma get_None_notin k o : Table.get k o = None <-> ~ In k (Table.keys o).
Proof.
  induction o as [|[k' v'] rest IH]; simpl.
  - tauto.
  - destruct (k' =? k) eqn:E.
    + apply String.eqb_eq in E. split; [discriminate | intro Hn; exfalso; auto].
    + apply String.eqb_neq in E. rewrite IH. tauto.
Qed.

Lemma get_Some_In k v o : Table.get k o = Some v -> In (k, v) o.
Proof.
  induction o as [|[k' v'] rest IH]; simpl; [discriminate|].
  destruct (k' =? k) eqn:E.
  - apply String.eqb_eq in E. intros [= ->]. subst. now left.
  - auto.
Qed.

Lemma In_get k v o : Table.wf o -> In (k, v) o -> Table.get k o = Some v.
Proof.
  unfold Table.wf. induction o as [|[k' v'] rest IH]; simpl; [tauto|].
  intros Hnd [Heq | Hin].
  - injection Heq as -> ->. now rewrite String.eqb_refl.
  - inversion Hnd as [|? ? Hnotin Hnd']; subst.
    destruct (k' =? k) eqn:E.
    + apply String.eqb_eq in E. subst k'.
      exfalso. apply Hnotin. unfold Table.keys.
      change k with (fst (k, v)). now apply in_map.
    + auto.
Qed.

Lemma delete_absent k o : Table.get k o = None -> Table.delete k o = o.
Proof.
  induction o as [|[k' v'] rest IH]; simpl; auto.
  destruct (k' =? k); [discriminate|]. intro Hg. now rewrite IH.
Qed.

Lemma In_delete p k o : In p (Table.delete k o) <-> In p o /\ fst p <> k.
Proof.
  rewrite delete_filter, filter_In, negb_true_iff, String.eqb_neq. tauto.
Qed.

Lemma keys_set k k' v o :
  In k' (Table.keys (Table.set k v o)) <-> k' = k \/ In k' (Table.keys o).
Proof.
  induction o as [|[k0 v0] rest IH]; simpl.
  - intuition.
  - destruct (k0 =? k) eqn:E; simpl.
    + apply String.eqb_eq in E. subst k0. intuition.
    + rewrite IH. intuition.
Qed.

Lemma wf_set k v o : Table.wf o -> Table.wf (Table.set k v o).
Proof.
  unfold Table.wf. induction o as [|[k0 v0] rest IH]; simpl; intro Hnd.
  - constructor; [simpl; tauto | constructor].
  - inversion Hnd as [|? ? Hnotin Hnd']; subst.
    destruct (k0 =? k) eqn:E; simpl.
    + apply String.eqb_eq in E. subst k0. now constructor.
    + apply String.eqb_neq in E. constructor; [|auto].
      intro Hin. apply keys_set in Hin. destruct Hin; auto.
Qed.

Lemma wf_delete k o : Table.wf o -> Table.wf (Table.delete k o).
Proof.
  unfold Table.wf. induction o as [|[k0 v0] rest IH]; simpl; intro Hnd; auto.
  inversion Hnd as [|? ? Hnotin Hnd']; subst.
  destruct (k0 =? k); simpl; auto.
  constructor; auto.
  intro Hin. apply Hnotin. unfold Table.keys in *.
  apply in_map_iff in Hin. destruct Hin as [p [Hp Hin]].
  apply In_delete in Hin. apply in_map_iff. exists p. tauto.
Qed.

Lemma wf_filter (f : string * V -> bool) o : Table.wf o -> Table.wf (filter f o).
Proof.
  unfold Table.wf. induction o as [|[k0 v0] rest IH]; simpl; intro Hnd; auto.
  inversion Hnd as [|? ? Hnotin Hnd']; subst.
  destruct (f (k0, v0)); simpl; auto.
  constructor; auto.
  intro Hin. apply Hnotin. unfold Table.keys in *.
  apply in_map_iff in Hin. destruct Hin as [p [Hp Hin]].
  apply filter_In in Hin. apply in_map_iff. exists p. tauto.
Qed.

Lemma wf_keys_NoDup o : Table.wf o -> NoDup (Table.keys o).
Proof. auto. Qed.

Lemma has_get k o : Table.has k o = true <-> Table.get k o <> None.
Proof.
  unfold Table.has. destruct (Table.get k o); split; congruence.
Qed.

End TableFacts.

(** ** Plain objects *)

Section ObjFacts.

Context {V : Type}.
Implicit Types (o : Table.t V) (k : string) (v : V).

Lemma obj_get_set_same k v o : Table.get k (Obj.set k v o) = Some v.
Proof.
  induction o as [|[k' v'] rest IH]; simpl.
  - now rewrite String.eqb_refl.
  - destruct (k' =? k) eqn:E; simpl.
    + now rewrite String.eqb_refl.
    + destruct (Obj.before k k' && negb (Table.has k rest)); simpl.
      * now rewrite String.eqb_refl.
      * now rewrite E.
Qed.

Lemma obj_get_set_other k k' v o :
  k <> k' -> Table.get k' (Obj.set k v o) = Table.get k' o.
Proof.
  intro Hne. induction o as [|[k0 v0] rest IH]; simpl.
  - now rewrite (eqb_false_ne k k').
  - destruct (k0 =? k) eqn:E; simpl.
    + apply String.eqb_eq in E. subst k0.
      now rewrite (eqb_false_ne k k').
    + destruct (Obj.before k k0 && negb (Table.has k rest)); simpl.
      * now rewrite (eqb_false_ne k k').
      * destruct (k0 =? k'); auto.
Qed.

Lemma obj_keys_set k k' v o :
  In k' (Table.keys (Obj.set k v o)) <-> k' = k \/ In k' (Table.keys o).
Proof.
  induction o as [|[k0 v0] rest IH]; simpl.
  - intuition.
  - destruct (k0 =? k) eqn:E; simpl.
    + apply String.eqb_eq in E. subst k0. intuition.
    + destruct (Obj.before k k0 && negb (Table.has k rest)); simpl.
      * intuition.
      * rewrite IH. intuition.
Qed.

Lemma obj_wf_set k v o : Table.wf o -> Table.wf (Obj.set k v o).
Proof.
  unfold Table.wf. induction o as [|[k0 v0] rest IH]; simpl; intro Hnd.
  - constructor; [simpl; tauto | constructor].
  - inversion Hnd as [|? ? Hnotin Hnd']; subst.
    destruct (k0 =? k) eqn:E; simpl.
    + apply String.eqb_eq in E. subst k0. now constructor.
    + apply String.eqb_neq in E.
      destruct (Obj.before k k0 && negb (Table.has k rest)) eqn:Eb; simpl.
      * apply andb_true_iff in Eb. destruct Eb as [_ Eh].
        apply negb_true_iff in Eh. unfold Table.has in Eh.
        constructor; [|exact Hnd].
        simpl. intros [Heq | Hin]; [congruence|].
        destruct (Table.get k rest) eqn:Eg; [discriminate|].
        now apply get_None_notin in Eg.
      * constructor; [|auto].
        intro Hin. apply obj_keys_set in Hin. destruct Hin; auto.
Qed.

Lemma obj_In_set_sub (p : string * V) k v o :
  In p (Obj.set k v o) -> p = (k, v) \/ In p o.
Proof.
  induction o as [|[k' v'] rest IH]; simpl.
  - intros [<- | []]. now left.
  - destruct (k' =? k); simpl.
    + intros [<- | Hin]; auto.
    + destruct (Obj.before k k' && negb (Table.has k rest)); simpl.
      * intros [<- | [<- | Hin]]; auto.
      * intros [<- | Hin]; auto. destruct (IH Hin); auto.
Qed.

Lemma obj_delete_set_fresh k v o :
  Table.get k o = None -> Table.delete k (Obj.set k v o) = o.
Proof.
  induction o as [|[k' v'] rest IH]; simpl.
  - intros _. now rewrite String.eqb_refl.
  - destruct (k' =? k) eqn:E; [discriminate|]. intro Hg.
    destruct (Obj.before k k' && negb (Table.has k rest)); simpl.
    + now rewrite String.eqb_refl, E, delete_absent.
    + now rewrite E, IH.
Qed.

Lemma read_own k v o : Table.get k o = Some v -> Obj.read k o = Obj.Own v.
Proof. unfold Obj.read. now intros ->. Qed.

Lemma read_undefined k o :
  Table.get k o = None -> Obj.inherited k = false -> Obj.read k o = Obj.Undefined.
Proof. unfold Obj.read. now intros -> ->. Qed.

Lemma read_inherited k o :
  Table.get k o = None -> Obj.inherited k = true ->
  Obj.read k o = Obj.Inherited k.
Proof. unfold Obj.read. now intros -> ->. Qed.

Lemma truthy_read k o :
  Obj.truthy (Obj.read k o) = false
  <-> Table.get k o = None /\ Obj.inherited k = false.
Proof.
  unfold Obj.read. destruct (Table.get k o); simpl.
  - split; [discriminate | intros [? _]; discriminate].
  - destruct (Obj.inherited k); simpl; split; auto; intros [_ ?]; discriminate.
Qed.

End ObjFacts.

(** ** The effect monad and the [tap] stage *)

Section EngineFacts.

Context {T : Type} `{Item T}.
Implicit Types (s st : State T) (a : ConfigSetAction T)
               (acts : list (ConfigSetAction T)) (k F : string).

Lemma tap_set_run (a : ConfigSetAction T) item s :
  (a = Add (actionId a) item \/ a = Update (actionId a) item
   \/ a = Moved (actionId a) item) ->
  tap a s = (tt, mutationOf a s, [StateNext (mutationOf a s); ChangesNext a]).
Proof.
  intros [-> | [-> | ->]]; simpl; unfold tap, addOrUpdateSet, bind, getState;
    simpl; destruct (Table.has _ s); reflexivity.
Qed.

Lemma tap_remove_run id s :
  tap (Remove id) s =
  if id =? "" then (tt, s, [ChangesNext (Remove id)])
  else if Obj.truthy (Obj.read id s)
       then (tt, Table.delete id s,
             [StateNext (Table.delete id s); ChangesNext (Remove id)])
       else (tt, s, [ChangesNext (Remove id)]).
Proof.
  unfold tap, removeSet, bind, getState.
  destruct (id =? ""); simpl; [reflexivity|].
  destruct (Obj.truthy (Obj.read id s)); reflexivity.
Qed.

Lemma stateAfter_tap a s : stateAfter (tap a) s = commit a s.
Proof.
  unfold stateAfter.
  destruct a as [id item | id item | id | id item].
  - now rewrite (tap_set_run (Add id item) item) by auto.
  - now rewrite (tap_set_run (Update id item) item) by auto.
  - rewrite tap_remove_run. simpl.
    destruct (id =? ""); [reflexivity|].
    destruct (Obj.truthy (Obj.read id s)) eqn:E; simpl; [reflexivity|].
    apply truthy_read in E. now rewrite delete_absent.
  - now rewrite (tap_set_run (Moved id item) item) by auto.
Qed.

Lemma actionsOf_tap a s : actionsOf (traceOf (tap a) s) = [a].
Proof.
  unfold traceOf.
  destruct a as [id item | id item | id | id item].
  - now rewrite (tap_set_run (Add id item) item) by auto.
  - now rewrite (tap_set_run (Update id item) item) by auto.
  - rewrite tap_remove_run.
    destruct (id =? ""); [reflexivity|].
    destruct (Obj.truthy (Obj.read id s)); reflexivity.
  - now rewrite (tap_set_run (Moved id item) item) by auto.
Qed.

Lemma actionsOf_app (t1 t2 : list (Emission T)) :
  actionsOf (t1 ++ t2) = actionsOf t1 ++ actionsOf t2.
Proof.
  induction t1 as [|[s0|a0] t1 IH]; simpl; auto. now rewrite IH.
Qed.

Lemma forEach_cons {A} (f : A -> Eff unit) x l s :
  stateAfter (forEach f (x :: l)) s = stateAfter (forEach f l) (stateAfter (f x) s)
  /\ traceOf (forEach f (x :: l)) s
     = traceOf (f x) s ++ traceOf (forEach f l) (stateAfter (f x) s).
Proof.
  unfold stateAfter, traceOf. simpl. unfold bind.
  destruct (f x s) as [[u s1] o1]. simpl.
  destruct (forEach f l s1) as [[u2 s2] o2]. simpl. auto.
Qed.

Lemma forEach_app {A} (f : A -> Eff unit) l1 l2 s :
  stateAfter (forEach f (l1 ++ l2)) s
  = stateAfter (forEach f l2) (stateAfter (forEach f l1) s)
  /\ traceOf (forEach f (l1 ++ l2)) s
     = traceOf (forEach f l1) s
       ++ traceOf (forEach f l2) (stateAfter (forEach f l1) s).
Proof.
  revert s. induction l1 as [|x l1 IH]; intro s.
  - simpl. auto.
  - change ((x :: l1) ++ l2) with (x :: (l1 ++ l2)).
    destruct (forEach_cons f x (l1 ++ l2) s) as [-> ->].
    destruct (forEach_cons f x l1 s) as [-> ->].
    destruct (IH (stateAfter (f x) s)) as [-> ->].
    now rewrite app_assoc.
Qed.

Lemma run_eta {A} (m : Eff A) s :
  m s = (resultOf m s, stateAfter m s, traceOf m s).
Proof.
  unfold resultOf, stateAfter, traceOf. now destruct (m s) as [[? ?] ?].
Qed.

Lemma forEach_tap_state acts s :
  stateAfter (forEach tap acts) s = commitAll acts s.
Proof.
  revert s. induction acts as [|a acts IH]; intro s; [reflexivity|].
  destruct (forEach_cons tap a acts s) as [-> _].
  now rewrite IH, stateAfter_tap.
Qed.

(** Every computed action is published exactly once, in order. *)
Lemma forEach_tap_actions acts s :
  actionsOf (traceOf (forEach tap acts) s) = acts.
Proof.
  revert s. induction acts as [|a acts IH]; intro s; [reflexivity|].
  destruct (forEach_cons tap a acts s) as [_ ->].
  now rewrite actionsOf_app, actionsOf_tap, IH.
Qed.

Lemma commitAll_app acts1 acts2 s :
  commitAll (acts1 ++ acts2) s = commitAll acts2 (commitAll acts1 s).
Proof. unfold commitAll. apply fold_left_app. Qed.

Lemma reconcile_validated F data s :
  reconcile (Validated F data) s = forEach tap (updateConfigFile F data s) s.
Proof.
  unfold reconcile, bind, getState.
  now destruct (forEach tap (updateConfigFile F data s) s) as [[? ?] ?].
Qed.

Lemma reconcile_removed F s :
  reconcile (Removed F) s = forEach tap (removeConfigFile F s) s.
Proof.
  unfold reconcile, bind, getState.
  now destruct (forEach tap (removeConfigFile F s) s) as [[? ?] ?].
Qed.

End EngineFacts.

(** ** The state-mutation interface and the validation gate *)

Section Interface.

Context {T : Type} `{Item T}.

(** X19. [removeSet] called with the empty (falsy) id, or with an id
    that the state does not hold and that [Object.prototype] has no
    property for, returns [undefined], and [addOrUpdateSet] called with a
    null or undefined set returns [null]; in each of the three cases the
    state is left as it was and [_state$] publishes nothing.  Called with
    a non-empty id the state does not hold but [Object.prototype] has a
    property for, [removeSet] returns the inherited value and publishes a
    state with the same entries. *)
Theorem mutation_interface_rejects (st : State T) :
  removeSet "" st = (Obj.Undefined, st, [])
  /\ (forall id, Table.get id st = None -> Obj.inherited id = false ->
                 removeSet id st = (Obj.Undefined, st, []))
  /\ addOrUpdateSet None st = (None, st, [])
  /\ (forall id, id <> "" -> Table.get id st = None ->
                 Obj.inherited id = true ->
                 removeSet id st = (Obj.Inherited id, st, [StateNext st])).
Proof.
  split; [reflexivity | split; [|split; [reflexivity|]]].
  - intros id Hget Hinh. unfold removeSet.
    destruct (id =? ""); [reflexivity|].
    unfold bind, getState. now rewrite (read_undefined id st Hget Hinh).
  - intros id Hne Hget Hinh. unfold removeSet.
    rewrite (eqb_false_ne _ _ Hne).
    unfold bind, getState. rewrite (read_inherited id st Hget Hinh). simpl.
    now rewrite (delete_absent id st Hget).
Qed.

Context `{Pipeline T}.

Lemma validateItems_invalid F (data : list T) :
  (exists n, In n data /\ validate n = false) ->
  validateItems F data = Some (formattingError F).
Proof.
  induction data as [|item rest IH]; intros [n [Hin Hv]]; [destruct Hin|].
  simpl. destruct (validate item) eqn:E; [|reflexivity].
  apply IH. destruct Hin as [-> | Hin]; [congruence | eauto].
Qed.

Lemma validateItems_valid F (data : list T) :
  validateItems F data = None <-> forall n, In n data -> validate n = true.
Proof.
  induction data as [|item rest IH]; simpl; [tauto|].
  destruct (validate item) eqn:E.
  - rewrite IH. split; [intros Hall n [<- | Hin]; auto | auto].
  - split; [discriminate | intro Hall; specialize (Hall item (or_introl eq_refl)); congruence].
Qed.

(** A failed validation always yields the error variant for the file of
    the notification, and the pipeline drops it. *)
Lemma invalid_result_dropped (fc : ConfigFileChange) (st : State T) F err :
  isRemove (change_type fc) = false ->
  validateConfigFile fc = Invalid F err ->
  F = change_filename fc /\ onFileChange fc st = (tt, st, []).
Proof.
  intros Hty Hv. split.
  - unfold validateConfigFile in Hv.
    destruct (if isBlank (change_content fc) then _ else _) as [e | data];
      [now injection Hv|].
    destruct (validateItems _ data); [now injection Hv | discriminate].
  - unfold onFileChange. now rewrite Hty, Hv.
Qed.

(** C3. An add/update notification whose content fails to parse, or one
    of whose items fails the schema, yields the single error result for
    that filename; the engine then publishes no action and no state, and
    the state is exactly the one before the event. *)
Theorem failed_validation_is_atomic (fc : ConfigFileChange) (st : State T) c :
  isRemove (change_type fc) = false ->
  change_content fc = Some c ->
  trim c <> "" ->
  match loadAll c with
  | inl _ => True
  | inr data => exists n, In n data /\ validate n = false
  end ->
  (exists err, validateConfigFile fc = Invalid (change_filename fc) err)
  /\ traceOf (onFileChange fc) st = []
  /\ stateAfter (onFileChange fc) st = st.
Proof.
  intros Hty Hc Hblank Hfail.
  assert (Hinv : exists err, validateConfigFile fc = Invalid (change_filename fc) err).
  { unfold validateConfigFile, isBlank. rewrite Hc.
    apply String.eqb_neq in Hblank. rewrite Hblank.
    destruct (loadAll c) as [e | data]; [eauto|].
    rewrite (validateItems_invalid _ data Hfail). eauto. }
  split; [exact Hinv|].
  destruct Hinv as [err Herr].
  destruct (invalid_result_dropped fc st _ _ Hty Herr) as [_ Hrun].
  unfold traceOf, stateAfter. now rewrite Hrun.
Qed.

End Interface.

(** ** One item of a validated list *)

Section PerItem.

Context {T : Type} `{Item T}.

Lemma equal_refl (n : T) : equal n n = true.
Proof. now apply equal_spec. Qed.

Lemma equal_false (a b : T) : a <> b -> equal a b = false.
Proof.
  intro Hne. destruct (equal a b) eqn:E; [|reflexivity].
  apply equal_spec in E. contradiction.
Qed.

Lemma itemActions_absent (st : State T) F n :
  Table.get (getId n) st = None -> Obj.inherited (getId n) = false ->
  itemActions st F n = [Add (getId n) {| filename := F; obj := n |}].
Proof.
  intros Hg Hi. unfold itemActions. now rewrite (read_undefined _ _ Hg Hi).
Qed.

Lemma itemActions_inherited (st : State T) F n :
  Table.get (getId n) st = None -> Obj.inherited (getId n) = true ->
  itemActions st F n = [Update (getId n) {| filename := F; obj := n |}].
Proof.
  intros Hg Hi. unfold itemActions. now rewrite (read_inherited _ _ Hg Hi).
Qed.

Lemma itemActions_changed (st : State T) F n e :
  Table.get (getId n) st = Some e -> obj e <> n ->
  itemActions st F n = [Update (getId n) {| filename := F; obj := n |}].
Proof.
  intros Hg Hne. unfold itemActions.
  now rewrite (read_own _ _ _ Hg), (equal_false _ _ Hne).
Qed.

Lemma itemActions_moved (st : State T) F n e :
  Table.get (getId n) st = Some e -> obj e = n -> filename e <> F ->
  itemActions st F n = [Moved (getId n) {| filename := F; obj := n |}].
Proof.
  intros Hg Heq Hne. unfold itemActions. rewrite (read_own _ _ _ Hg).
  subst n. now rewrite equal_refl, (eqb_false_ne _ _ Hne).
Qed.

Lemma itemActions_same (st : State T) F n e :
  Table.get (getId n) st = Some e -> obj e = n -> filename e = F ->
  itemActions st F n = [].
Proof.
  intros Hg Heq Hf. unfold itemActions. rewrite (read_own _ _ _ Hg).
  subst n F. now rewrite equal_refl, String.eqb_refl.
Qed.

End PerItem.

(** ** What a file event does to the state *)

Section Reconciliation.

Context {T : Type} `{Item T}.
Implicit Types (s st : State T) (a : ConfigSetAction T)
               (acts : list (ConfigSetAction T)) (k F : string)
               (data : list T) (e : ConfigSet T).

(** *** Well-formed states *)

Lemma wfState_empty : wfState (Table.empty : State T).
Proof. split; [constructor | intros k e []]. Qed.

Lemma wfState_get st k e : wfState st -> Table.get k st = Some e -> getId (obj e) = k.
Proof. intros [_ Hk] Hg. apply Hk. now apply get_Some_In. Qed.

Lemma wfState_In st k e : wfState st -> In (k, e) st -> Table.get k st = Some e.
Proof. intros [Hwf _] Hin. now apply In_get. Qed.

Lemma In_set_sub {V} (p : string * V) k v (o : Table.t V) :
  In p (Table.set k v o) -> p = (k, v) \/ In p o.
Proof.
  induction o as [|[k' v'] rest IH]; simpl.
  - intros [<- | []]. now left.
  - destruct (k' =? k); simpl.
    + intros [<- | Hin]; auto.
    + intros [<- | Hin]; auto. destruct (IH Hin); auto.
Qed.

Lemma wfState_commit a s : wfState s -> wfState (commit a s).
Proof.
  intros [Hwf Hk].
  assert (Hset : forall item, wfState (Obj.set (getId (obj item)) item s)).
  { intro item. split; [now apply obj_wf_set|].
    intros k e Hin. apply obj_In_set_sub in Hin.
    destruct Hin as [[= -> ->] | Hin]; auto. }
  destruct a as [id item | id item | id | id item]; simpl; auto.
  destruct (id =? ""); [now split|].
  split; [now apply wf_delete|].
  intros k e Hin. apply In_delete in Hin. now apply Hk.
Qed.

Lemma wfState_commitAll acts s : wfState s -> wfState (commitAll acts s).
Proof.
  revert s. induction acts as [|a acts IH]; intros s Hwf; [exact Hwf|].
  simpl. apply IH. now apply wfState_commit.
Qed.

(** *** Looking an identity up in a list *)

Lemma declaresId_In k data : declaresId k data = true <-> In k (map getId data).
Proof.
  unfold declaresId. rewrite existsb_exists, in_map_iff.
  split; intros [n [H1 H2]]; exists n.
  - apply String.eqb_eq in H2. auto.
  - split; [tauto|]. apply String.eqb_eq. tauto.
Qed.

Lemma declaresId_false k data : declaresId k data = false <-> ~ In k (map getId data).
Proof.
  rewrite <- declaresId_In. destruct (declaresId k data); split; congruence.
Qed.

Lemma getIndexOfIdFrom_found i k data :
  (0 <= i)%Z ->
  (getIndexOfIdFrom i k data =? -1)%Z = negb (declaresId k data).
Proof.
  revert i. induction data as [|item rest IH]; intros i Hi; simpl; [reflexivity|].
  destruct (getId item =? k); simpl.
  - apply Z.eqb_neq. lia.
  - apply IH. lia.
Qed.

Lemma getIndexOfId_missing k data :
  (getIndexOfId k data =? -1)%Z = negb (declaresId k data).
Proof. apply getIndexOfIdFrom_found. lia. Qed.

(** *** The computed actions *)

Lemma stateArrayForFile_tracked st F :
  stateArrayForFile st F = map snd (trackedUnder F st).
Proof.
  unfold stateArrayForFile, trackedUnder, Table.values.
  induction st as [|[k e] rest IH]; simpl; [reflexivity|].
  destruct (filename e =? F); simpl; now rewrite IH.
Qed.

Lemma trackedUnder_In st F k e :
  In (k, e) (trackedUnder F st) <-> In (k, e) st /\ filename e = F.
Proof.
  unfold trackedUnder. rewrite filter_In. simpl. now rewrite String.eqb_eq.
Qed.

Lemma removeConfigFile_tracked st F :
  wfState st ->
  removeConfigFile F st = map (fun p => Remove (fst p)) (trackedUnder F st).
Proof.
  intros [_ Hk]. unfold removeConfigFile.
  rewrite stateArrayForFile_tracked, map_map.
  apply map_ext_in. intros [k e] Hin. simpl.
  apply trackedUnder_In in Hin. f_equal. apply Hk. tauto.
Qed.

Lemma vanished_tracked st F data :
  wfState st ->
  flat_map (vanishedAction data) (stateArrayForFile st F)
  = map (fun p => Remove (fst p)) (vanishingUnder F data st).
Proof.
  intros [_ Hk]. rewrite stateArrayForFile_tracked. unfold vanishingUnder.
  assert (Hsub : forall p, In p (trackedUnder F st) -> getId (obj (snd p)) = fst p).
  { intros [k e] Hin. apply trackedUnder_In in Hin. simpl. apply Hk. tauto. }
  induction (trackedUnder F st) as [|[k e] rest IH]; simpl; [reflexivity|].
  unfold vanishedAction at 1. simpl.
  assert (Hke : getId (obj e) = k) by (apply (Hsub (k, e)); now left).
  rewrite Hke, getIndexOfId_missing.
  destruct (declaresId k data); simpl; rewrite IH; auto;
    intros p Hp; apply Hsub; now right.
Qed.

Lemma itemActions_shape st F n a :
  In a (itemActions st F n) ->
  actionId a = getId n /\ isRemoveAction a = false
  /\ commit a = Obj.set (getId n) {| filename := F; obj := n |}.
Proof.
  unfold itemActions.
  destruct (Obj.read (getId n) st) as [e | k |].
  - destruct (equal (obj e) n) eqn:E; simpl.
    + apply equal_spec in E.
      destruct (filename e =? F); simpl; [tauto|].
      intros [<- | []]. simpl. now rewrite E.
    + intros [<- | []]. auto.
  - intros [<- | []]. auto.
  - intros [<- | []]. auto.
Qed.

Lemma itemActions_length st F n : (List.length (itemActions st F n) <= 1)%nat.
Proof.
  unfold itemActions.
  destruct (Obj.read (getId n) st) as [e | k |]; simpl; auto.
  destruct (equal (obj e) n), (filename e =? F); simpl; auto.
Qed.

Lemma itemActions_nil st F n :
  itemActions st F n = [] <->
  Table.get (getId n) st = Some {| filename := F; obj := n |}.
Proof.
  unfold itemActions, Obj.read.
  destruct (Table.get (getId n) st) as [[f o]|]; simpl.
  - destruct (equal o n) eqn:E; simpl.
    + apply equal_spec in E. subst o.
      destruct (f =? F) eqn:E2; simpl.
      * apply String.eqb_eq in E2. subst. tauto.
      * apply String.eqb_neq in E2. split; [discriminate | intros [= ?]; tauto].
    + split; [discriminate|]. intros [= _ ->].
      rewrite equal_refl in E. discriminate.
  - destruct (Obj.inherited (getId n)); split; discriminate.
Qed.

(** *** The state after the actions *)

Lemma get_commit_removes (l : list (string * ConfigSet T)) s k :
  Table.get k (commitAll (map (fun p => Remove (fst p)) l) s)
  = if negb (k =? "") && existsb (fun p => fst p =? k) l
    then None else Table.get k s.
Proof.
  revert s. induction l as [|[i e] rest IH]; intro s; simpl.
  - now rewrite andb_false_r.
  - rewrite IH. destruct (i =? "") eqn:Ei.
    + apply String.eqb_eq in Ei. subst i. now destruct k.
    + destruct (i =? k) eqn:Eik.
      * apply String.eqb_eq in Eik. subst i. rewrite Ei. simpl.
        rewrite get_delete_same.
        now destruct (existsb _ rest).
      * apply String.eqb_neq in Eik. simpl.
        now rewrite get_delete_other.
Qed.

Lemma filter_all {A} (f : A -> bool) (l : list A) :
  (forall x, In x l -> f x = true) -> filter f l = l.
Proof.
  induction l as [|x l IH]; simpl; intro Hall; [reflexivity|].
  rewrite Hall by now left. f_equal. apply IH. auto.
Qed.

Lemma filter_none {A} (f : A -> bool) (l : list A) :
  (forall x, In x l -> f x = false) -> filter f l = [].
Proof.
  induction l as [|x l IH]; simpl; intro Hall; [reflexivity|].
  rewrite Hall by now left. apply IH. auto.
Qed.

Lemma filter_filter {A} (f g : A -> bool) (l : list A) :
  filter g (filter f l) = filter (fun x => f x && g x) l.
Proof.
  induction l as [|x l IH]; simpl; [reflexivity|].
  destruct (f x); simpl; [destruct (g x)|]; now rewrite IH.
Qed.

Lemma commit_removes_filter (l : list (string * ConfigSet T)) s :
  (forall p, In p l -> fst p <> "") ->
  commitAll (map (fun p => Remove (fst p)) l) s
  = filter (fun q => negb (existsb (fun p => fst p =? fst q) l)) s.
Proof.
  revert s. induction l as [|[i e] rest IH]; intros s Hne; simpl.
  - symmetry. now apply filter_all.
  - rewrite (eqb_false_ne i "") by (apply (Hne (i, e)); now left).
    rewrite IH by (intros p Hp; apply Hne; now right).
    rewrite delete_filter, filter_filter.
    apply filter_ext. intros [k' e']. simpl.
    rewrite (String.eqb_sym k' i). now rewrite negb_orb.
Qed.

Lemma existsb_tracked st F k :
  wfState st ->
  existsb (fun p => fst p =? k) (trackedUnder F st)
  = match Table.get k st with
    | Some e => filename e =? F
    | None => false
    end.
Proof.
  intro Hwf.
  assert (Hiff : existsb (fun p => fst p =? k) (trackedUnder F st) = true
                 <-> exists e, Table.get k st = Some e /\ filename e = F).
  { rewrite existsb_exists. split.
    - intros [[k' e] [Hin Hk]]. simpl in Hk. apply String.eqb_eq in Hk. subst k'.
      apply trackedUnder_In in Hin. exists e. split; [|tauto].
      apply wfState_In; tauto.
    - intros [e [Hg Hf]]. exists (k, e). simpl. rewrite String.eqb_refl.
      split; [|reflexivity]. apply trackedUnder_In. split; [|exact Hf].
      now apply get_Some_In. }
  destruct (Table.get k st) as [e|].
  - destruct (filename e =? F) eqn:E.
    + apply Hiff. exists e. split; [reflexivity|]. now apply String.eqb_eq.
    + destruct (existsb _ _); [|reflexivity].
      destruct (proj1 Hiff eq_refl) as [e' [[= <-] Hf]].
      apply String.eqb_neq in E. contradiction.
  - destruct (existsb _ _); [|reflexivity].
    destruct (proj1 Hiff eq_refl) as [e' [Hg _]]. discriminate.
Qed.

Lemma existsb_vanishing st F data k :
  wfState st ->
  existsb (fun p => fst p =? k) (vanishingUnder F data st)
  = negb (declaresId k data)
    && match Table.get k st with
       | Some e => filename e =? F
       | None => false
       end.
Proof.
  intro Hwf. rewrite <- (existsb_tracked st F k Hwf). unfold vanishingUnder.
  induction (trackedUnder F st) as [|[i e] rest IH]; simpl.
  - now rewrite andb_false_r.
  - destruct (i =? k) eqn:E.
    + apply String.eqb_eq in E. subst i.
      destruct (declaresId k data); simpl.
      * exact IH.
      * now rewrite String.eqb_refl.
    + destruct (declaresId i data); simpl; [exact IH|].
      now rewrite E.
Qed.

Lemma commit_itemActions st F n s :
  (commitAll (itemActions st F n) s = s
   /\ Table.get (getId n) st = Some {| filename := F; obj := n |})
  \/ commitAll (itemActions st F n) s
     = Obj.set (getId n) {| filename := F; obj := n |} s.
Proof.
  pose proof (itemActions_length st F n) as Hlen.
  pose proof (itemActions_shape st F n) as Hshape.
  pose proof (itemActions_nil st F n) as Hnil.
  destruct (itemActions st F n) as [|a [|b rest]]; simpl in *.
  - left. split; [reflexivity | now apply Hnil].
  - right. destruct (Hshape a (or_introl eq_refl)) as [_ [_ ->]]. reflexivity.
  - lia.
Qed.

(** After the actions of the items of [data] every identity is either
    untouched, and then each item declaring it already sat in [st] under
    [F] as it is, or it holds one of the items declaring it, under [F]. *)
Lemma get_commit_items st F data s k :
  (Table.get k (commitAll (flat_map (itemActions st F) data) s) = Table.get k s
   /\ forall n, In n data -> getId n = k ->
                Table.get k st = Some {| filename := F; obj := n |})
  \/ exists n, In n data /\ getId n = k
               /\ Table.get k (commitAll (flat_map (itemActions st F) data) s)
                  = Some {| filename := F; obj := n |}.
Proof.
  revert s. induction data as [|n rest IH]; intro s.
  - left. split; [reflexivity | intros n []].
  - simpl. rewrite commitAll_app.
    destruct (IH (commitAll (itemActions st F n) s)) as [[Hget Hall] | [n' [Hin [Hid Hget]]]].
    + destruct (commit_itemActions st F n s) as [[Hs Hst] | Hs];
        rewrite Hs in Hget |- *.
      * left. split; [exact Hget|].
        intros n0 [<- | Hin0] Hid0; [now rewrite <- Hid0 | auto].
      * destruct (string_dec (getId n) k) as [Heq | Hne].
        -- right. exists n. split; [now left|]. split; [exact Heq|].
           rewrite Hget, <- Heq. apply obj_get_set_same.
        -- left. rewrite obj_get_set_other in Hget by exact Hne.
           split; [exact Hget|].
           intros n0 [<- | Hin0] Hid0; [contradiction | auto].
    + right. exists n'. split; [now right | tauto].
Qed.

Lemma update_state_declared st F data k :
  wfState st -> In k (map getId data) ->
  exists n, In n data /\ getId n = k
            /\ Table.get k (commitAll (updateConfigFile F data st) st)
               = Some {| filename := F; obj := n |}.
Proof.
  intros Hwf Hin. unfold updateConfigFile.
  rewrite commitAll_app, vanished_tracked by exact Hwf.
  destruct (get_commit_items st F data
              (commitAll (map (fun p => Remove (fst p)) (vanishingUnder F data st)) st) k)
    as [[Hget Hall] | Hex]; [|exact Hex].
  apply in_map_iff in Hin. destruct Hin as [n [Hid Hn]].
  exists n. split; [exact Hn|]. split; [exact Hid|].
  rewrite Hget, get_commit_removes, existsb_vanishing by exact Hwf.
  rewrite (proj2 (declaresId_In k data)).
  - simpl. rewrite andb_false_r. auto.
  - apply in_map_iff. eauto.
Qed.

Lemma update_state_undeclared st F data k :
  wfState st -> ~ In k (map getId data) ->
  Table.get k (commitAll (updateConfigFile F data st) st)
  = match Table.get k st with
    | Some e => if negb (k =? "") && (filename e =? F) then None else Some e
    | None => None
    end.
Proof.
  intros Hwf Hnin. unfold updateConfigFile.
  rewrite commitAll_app, vanished_tracked by exact Hwf.
  destruct (get_commit_items st F data
              (commitAll (map (fun p => Remove (fst p)) (vanishingUnder F data st)) st) k)
    as [[Hget _] | [n [Hn [Hid _]]]].
  - rewrite Hget, get_commit_removes, existsb_vanishing by exact Hwf.
    rewrite (proj2 (declaresId_false k data) Hnin). simpl.
    destruct (Table.get k st) as [e|]; [reflexivity|].
    now rewrite andb_false_r.
  - exfalso. apply Hnin. apply in_map_iff. eauto.
Qed.

Lemma remove_state st F k :
  wfState st ->
  Table.get k (commitAll (removeConfigFile F st) st)
  = match Table.get k st with
    | Some e => if negb (k =? "") && (filename e =? F) then None else Some e
    | None => None
    end.
Proof.
  intro Hwf.
  rewrite removeConfigFile_tracked, get_commit_removes, existsb_tracked by exact Hwf.
  destruct (Table.get k st) as [e|]; [reflexivity|].
  now rewrite andb_false_r.
Qed.

End Reconciliation.

(** ** The actions that concern one identity *)

Section ActionsAbout.

Context {T : Type} `{Item T}.
Implicit Types (s st : State T) (k F : string) (data : list T).

Lemma filter_comm {A} (f g : A -> bool) (l : list A) :
  filter f (filter g l) = filter g (filter f l).
Proof.
  rewrite !filter_filter. apply filter_ext. intro x. apply andb_comm.
Qed.

Lemma filter_key {V} (o : Table.t V) k :
  Table.wf o ->
  filter (fun p => fst p =? k) o
  = match Table.get k o with Some v => [(k, v)] | None => [] end.
Proof.
  unfold Table.wf. induction o as [|[k' v'] rest IH]; simpl; intro Hnd; [reflexivity|].
  inversion Hnd as [|? ? Hnotin Hnd']; subst.
  destruct (k' =? k) eqn:E.
  - apply String.eqb_eq in E. subst k'. f_equal.
    rewrite IH by exact Hnd'.
    now rewrite (proj2 (get_None_notin k rest) Hnotin).
  - now apply IH.
Qed.

Lemma about_removes (l : list (string * ConfigSet T)) k :
  filter (@aboutId T k) (map (fun p => Remove (fst p)) l)
  = map (fun p => Remove (fst p)) (filter (fun p => fst p =? k) l).
Proof.
  induction l as [|[i e] rest IH]; simpl; [reflexivity|].
  unfold aboutId at 1. simpl. destruct (i =? k); simpl; now rewrite IH.
Qed.

Lemma about_tracked st F k :
  wfState st ->
  filter (aboutId k) (removeConfigFile F st)
  = match Table.get k st with
    | Some e => if filename e =? F then [Remove k] else []
    | None => []
    end.
Proof.
  intro Hwf. rewrite removeConfigFile_tracked, about_removes by exact Hwf.
  unfold trackedUnder. rewrite filter_comm, filter_key by apply Hwf.
  destruct (Table.get k st) as [e|]; simpl; [|reflexivity].
  now destruct (filename e =? F).
Qed.

Lemma about_vanished st F data k :
  wfState st ->
  filter (aboutId k) (flat_map (vanishedAction data) (stateArrayForFile st F))
  = match Table.get k st with
    | Some e =>
        if (filename e =? F) && negb (declaresId k data) then [Remove k] else []
    | None => []
    end.
Proof.
  intro Hwf. rewrite vanished_tracked, about_removes by exact Hwf.
  unfold vanishingUnder, trackedUnder.
  rewrite filter_comm, (filter_comm (fun p => fst p =? k)), filter_key by apply Hwf.
  destruct (Table.get k st) as [e|]; simpl; [|reflexivity].
  destruct (filename e =? F); simpl; [|reflexivity].
  now destruct (declaresId k data).
Qed.

Lemma about_item_other st F n k :
  getId n <> k -> filter (aboutId k) (itemActions st F n) = [].
Proof.
  intro Hne. pose proof (itemActions_shape st F n) as Hshape.
  induction (itemActions st F n) as [|a rest IH]; simpl; [reflexivity|].
  destruct (Hshape a (or_introl eq_refl)) as [Hid _].
  unfold aboutId at 1. rewrite Hid, (eqb_false_ne _ _ Hne).
  apply IH. intros b Hb. apply Hshape. now right.
Qed.

Lemma about_item_same st F n :
  filter (aboutId (getId n)) (itemActions st F n) = itemActions st F n.
Proof.
  apply filter_all. intros a Ha.
  destruct (itemActions_shape st F n a Ha) as [Hid _].
  unfold aboutId. rewrite Hid. apply String.eqb_refl.
Qed.

Lemma about_items_other st F data k :
  ~ In k (map getId data) ->
  filter (aboutId k) (flat_map (itemActions st F) data) = [].
Proof.
  induction data as [|n rest IH]; simpl; intro Hnin; [reflexivity|].
  rewrite filter_app, about_item_other by tauto.
  apply IH. tauto.
Qed.

(** With pairwise distinct identities, the only actions of the second
    loop about an identity are those of the one item that declares it. *)
Lemma about_items_distinct st F before n after :
  ~ In (getId n) (map getId (before ++ after)) ->
  filter (aboutId (getId n)) (flat_map (itemActions st F) (before ++ n :: after))
  = itemActions st F n.
Proof.
  intro Hnin. rewrite map_app, in_app_iff in Hnin.
  rewrite flat_map_app, filter_app. simpl. rewrite filter_app.
  rewrite !about_items_other, about_item_same by tauto.
  now rewrite app_nil_r.
Qed.

Lemma about_update_declared st F before n after :
  wfState st ->
  ~ In (getId n) (map getId (before ++ after)) ->
  filter (aboutId (getId n)) (updateConfigFile F (before ++ n :: after) st)
  = itemActions st F n.
Proof.
  intros Hwf Hnin. unfold updateConfigFile.
  rewrite filter_app, about_vanished, about_items_distinct by assumption.
  assert (Hdecl : declaresId (getId n) (before ++ n :: after) = true).
  { apply declaresId_In. rewrite map_app, in_app_iff. right. now left. }
  rewrite Hdecl.
  destruct (Table.get (getId n) st) as [e|]; simpl; [|reflexivity].
  now rewrite andb_false_r.
Qed.

End ActionsAbout.

(** ** Properties of a single file event *)

Section FileEvents.

Context {T : Type} `{Item T}.
Implicit Types (s st : State T) (k F : string) (data : list T).

Lemma validated_actions st F data :
  actionsOf (traceOf (reconcile (Validated F data)) st) = updateConfigFile F data st.
Proof.
  unfold traceOf. rewrite reconcile_validated. apply forEach_tap_actions.
Qed.

Lemma validated_state st F data :
  stateAfter (reconcile (Validated F data)) st
  = commitAll (updateConfigFile F data st) st.
Proof.
  unfold stateAfter. rewrite reconcile_validated. apply forEach_tap_state.
Qed.

Lemma removed_actions st F :
  actionsOf (traceOf (reconcile (Removed F)) st) = removeConfigFile F st.
Proof.
  unfold traceOf. rewrite reconcile_removed. apply forEach_tap_actions.
Qed.

Lemma removed_state st F :
  stateAfter (reconcile (Removed F)) st = commitAll (removeConfigFile F st) st.
Proof.
  unfold stateAfter. rewrite reconcile_removed. apply forEach_tap_state.
Qed.

Lemma wfState_reconcile st (ev : FileEvent T) :
  wfState st -> wfState (stateAfter (reconcile ev) st).
Proof.
  intro Hwf. destruct ev as [F data | F].
  - rewrite validated_state. now apply wfState_commitAll.
  - rewrite removed_state. now apply wfState_commitAll.
Qed.

Lemma get_commit_vanished data (l : list (ConfigSet T)) s k :
  declaresId k data = true ->
  Table.get k (commitAll (flat_map (vanishedAction data) l) s) = Table.get k s.
Proof.
  intro Hdecl. revert s. induction l as [|e rest IH]; intro s; [reflexivity|].
  simpl. rewrite commitAll_app, IH. unfold vanishedAction.
  rewrite getIndexOfId_missing.
  destruct (declaresId (getId (obj e)) data) eqn:Ed; simpl; [reflexivity|].
  destruct (getId (obj e) =? ""); [reflexivity|].
  apply get_delete_other. intros Heq. rewrite Heq in Ed. congruence.
Qed.

Lemma first_occurrence_sees_snapshot st F before n after :
  ~ In (getId n) (map getId before) ->
  Table.get (getId n)
    (stateAfter
       (forEach tap
          (flat_map (vanishedAction (before ++ n :: after)) (stateArrayForFile st F)
           ++ flat_map (itemActions st F) before)) st)
  = Table.get (getId n) st.
Proof.
  intro Hfirst. rewrite forEach_tap_state, commitAll_app.
  destruct (get_commit_items st F before
              (commitAll (flat_map (vanishedAction (before ++ n :: after))
                                   (stateArrayForFile st F)) st)
              (getId n)) as [[Hget _] | [n' [Hn' [Hid _]]]].
  - rewrite Hget. apply get_commit_vanished.
    apply declaresId_In. rewrite map_app, in_app_iff. right. now left.
  - exfalso. apply Hfirst. rewrite <- Hid. now apply in_map.
Qed.

(** C2, amended.  Let [n] be an item of the validated list
    [before ++ n :: after] of file [F] whose identity [id] no item before
    it has and [Object.prototype] has no property for, and let [s1] be the
    state when the actions of [n] are committed, after those of the
    vanished identities and of the items before it.  If [s1] holds nothing
    under [id], [Add] is published and the state then holds [(F, n)] under
    [id]; if it holds another payload, [Update] is published and the state
    then holds [(F, n)]; if it holds the same payload under another
    filename, [Moved] is published and the state then holds the entry with
    only its filename replaced; in the three cases the new state is
    published right before the action and every other identity is left
    alone.  If it holds the same payload under [F], nothing is published
    and the state is unchanged. *)
Theorem item_reconciliation (st : State T) F before n after :
  ~ In (getId n) (map getId before) ->
  Obj.inherited (getId n) = false ->
  let data := before ++ n :: after in
  let id := getId n in
  let pre := flat_map (vanishedAction data) (stateArrayForFile st F)
             ++ flat_map (itemActions st F) before in
  let this := itemActions st F n in
  let post := flat_map (itemActions st F) after in
  let s1 := stateAfter (forEach tap pre) st in
  let s2 := stateAfter (forEach tap this) s1 in
  let stored cs a :=
    this = [a]
    /\ traceOf (forEach tap this) s1 = [StateNext s2; ChangesNext a]
    /\ Table.get id s2 = Some cs
    /\ forall k, k <> id -> Table.get k s2 = Table.get k s1 in
  actionsOf (traceOf (reconcile (Validated F data)) st) = pre ++ this ++ post
  /\ traceOf (reconcile (Validated F data)) st
     = traceOf (forEach tap pre) st ++ traceOf (forEach tap this) s1
       ++ traceOf (forEach tap post) s2
  /\ (Table.get id s1 = None ->
      stored {| filename := F; obj := n |}
             (Add id {| filename := F; obj := n |}))
  /\ (forall e, Table.get id s1 = Some e -> obj e <> n ->
      stored {| filename := F; obj := n |}
             (Update id {| filename := F; obj := n |}))
  /\ (forall e, Table.get id s1 = Some e -> obj e = n -> filename e <> F ->
      stored {| filename := F; obj := obj e |}
             (Moved id {| filename := F; obj := n |}))
  /\ (forall e, Table.get id s1 = Some e -> obj e = n -> filename e = F ->
      this = [] /\ traceOf (forEach tap this) s1 = [] /\ s2 = s1).
Proof.
  intros Hfirst Hinh data id pre this post s1 s2 stored.
  assert (Hsnap : Table.get id s1 = Table.get id st)
    by apply (first_occurrence_sees_snapshot st F before n after Hfirst).
  assert (Hsplit : updateConfigFile F data st = pre ++ this ++ post).
  { unfold updateConfigFile, data, pre, this, post.
    rewrite flat_map_app. simpl. now rewrite app_assoc. }
  assert (Hone : forall a item,
             this = [a] ->
             (a = Add (actionId a) item \/ a = Update (actionId a) item
              \/ a = Moved (actionId a) item) ->
             getId (obj item) = id ->
             stored item a).
  { intros a item Hthis Hshape Hid. unfold stored.
    assert (Hrun : forEach tap this s1
                   = (tt, mutationOf a s1,
                      [StateNext (mutationOf a s1); ChangesNext a])).
    { rewrite Hthis. simpl. unfold bind.
      now rewrite (tap_set_run a item s1 Hshape). }
    assert (Hs2 : s2 = Obj.set id item s1).
    { unfold s2, stateAfter. rewrite Hrun. simpl.
      destruct Hshape as [-> | [-> | ->]]; simpl; now rewrite Hid. }
    split; [exact Hthis|]. split.
    - unfold traceOf. rewrite Hrun. simpl. rewrite Hs2.
      destruct Hshape as [-> | [-> | ->]]; simpl; now rewrite Hid.
    - rewrite Hs2. split; [apply obj_get_set_same|].
      intros k Hk. apply obj_get_set_other. congruence. }
  split; [now rewrite validated_actions|]. split.
  { unfold traceOf at 1. rewrite reconcile_validated, Hsplit.
    fold (traceOf (forEach tap (pre ++ this ++ post)) st).
    destruct (forEach_app tap pre (this ++ post) st) as [_ ->].
    fold s1. destruct (forEach_app tap this post s1) as [_ ->].
    reflexivity. }
  rewrite Hsnap. split; [|split; [|split]].
  - intros Habs. apply Hone; auto. now apply itemActions_absent.
  - intros e Hget Hne. apply Hone; auto.
    now apply (itemActions_changed st F n e).
  - intros e Hget Heq Hne. rewrite Heq. apply Hone; auto.
    now apply (itemActions_moved st F n e).
  - intros e Hget Heq Hf.
    assert (Hthis : this = []) by now apply (itemActions_same st F n e).
    split; [exact Hthis|]. unfold s2. rewrite Hthis. auto.
Qed.

(** C4, amended.  From a well-formed state whose entry under the empty
    identity, if there is one, is not filed under [F], the removal of file
    [F] publishes exactly one [Remove] per entry filed under [F] and
    nothing else, leaves exactly the entries filed under other files, each
    as it was and in the same order, and so leaves no entry filed under
    [F]. *)
Theorem file_removal_complete st F :
  wfState st ->
  (forall e, Table.get "" st = Some e -> filename e <> F) ->
  let acts := actionsOf (traceOf (reconcile (Removed F)) st) in
  let st' := stateAfter (reconcile (Removed F)) st in
  acts = map (fun p => Remove (fst p)) (trackedUnder F st)
  /\ List.length acts = List.length (trackedUnder F st)
  /\ st' = filter (fun p => negb (filename (snd p) =? F)) st
  /\ trackedUnder F st' = []
  /\ (forall k e, Table.get k st = Some e -> filename e = F ->
                  Table.get k st' = None)
  /\ (forall k e, Table.get k st = Some e -> filename e <> F ->
                  Table.get k st' = Some e).
Proof.
  intros Hwf Hempty acts st'.
  assert (Hacts : acts = map (fun p => Remove (fst p)) (trackedUnder F st)).
  { unfold acts. now rewrite removed_actions, removeConfigFile_tracked. }
  assert (Hst : st' = filter (fun p => negb (filename (snd p) =? F)) st).
  { unfold st'. rewrite removed_state, removeConfigFile_tracked by exact Hwf.
    rewrite commit_removes_filter.
    - apply filter_ext_in. intros [k e] Hin. simpl.
      rewrite (existsb_tracked st F k Hwf).
      now rewrite (wfState_In st k e Hwf Hin).
    - intros [k e] Hin Hk. simpl in Hk. subst k.
      apply trackedUnder_In in Hin. destruct Hin as [Hin Hf].
      apply (Hempty e); [now apply wfState_In | exact Hf]. }
  assert (Hget : forall k e, Table.get k st = Some e ->
            Table.get k st' = if filename e =? F then None else Some e).
  { intros k e Hg. unfold st'. rewrite removed_state, remove_state, Hg by exact Hwf.
    destruct (filename e =? F) eqn:E; [|now rewrite andb_false_r].
    apply String.eqb_eq in E.
    destruct (k =? "") eqn:Ek; [|reflexivity].
    apply String.eqb_eq in Ek. subst k. now destruct (Hempty e Hg). }
  split; [exact Hacts|]. split; [now rewrite Hacts, length_map|].
  split; [exact Hst|]. split; [|split].
  - rewrite Hst. unfold trackedUnder. rewrite filter_filter.
    apply filter_none. intros [k e] _. simpl.
    now destruct (filename e =? F).
  - intros k e Hg Hf. rewrite (Hget k e Hg).
    now rewrite (proj2 (String.eqb_eq _ _) Hf).
  - intros k e Hg Hf. rewrite (Hget k e Hg).
    now rewrite (eqb_false_ne _ _ Hf).
Qed.

(** C5, amended.  Let the non-empty identity [X], for which
    [Object.prototype] has no property, sit in a well-formed
    state under file [A] with payload [v], and let the list of another file
    [B] declare [X] exactly once, with the same payload.  If the event of
    [B] runs first, its only action about [X] is one [Moved], [X] is then
    filed under [B], and the removal of [A] has no action about [X].  If the
    removal of [A] runs first, its only action about [X] is [Remove X], [X]
    is gone, and the event of [B] then has [Add] as its only action about
    [X]. *)
Theorem move_is_deterministic st A B X v before after :
  X <> "" -> Obj.inherited X = false -> A <> B -> wfState st ->
  Table.get X st = Some {| filename := A; obj := v |} ->
  ~ In X (map getId (before ++ after)) ->
  let data := before ++ v :: after in
  (let st1 := stateAfter (reconcile (Validated B data)) st in
   filter (aboutId X) (actionsOf (traceOf (reconcile (Validated B data)) st))
   = [Moved X {| filename := B; obj := v |}]
   /\ Table.get X st1 = Some {| filename := B; obj := v |}
   /\ filter (aboutId X) (actionsOf (traceOf (reconcile (Removed A)) st1)) = [])
  /\
  (let st2 := stateAfter (reconcile (Removed A)) st in
   filter (aboutId X) (actionsOf (traceOf (reconcile (Removed A)) st)) = [Remove X]
   /\ Table.get X st2 = None
   /\ filter (aboutId X) (actionsOf (traceOf (reconcile (Validated B data)) st2))
      = [Add X {| filename := B; obj := v |}]).
Proof.
  intros HX Hinh HAB Hwf Hget Hnin data.
  assert (Hid : getId v = X) by apply (wfState_get st X _ Hwf Hget).
  subst X. split.
  - intro st1.
    assert (Hst1 : Table.get (getId v) st1 = Some {| filename := B; obj := v |}).
    { unfold st1. rewrite validated_state.
      destruct (update_state_declared st B data (getId v) Hwf) as [n [Hn [Hidn Hg]]].
      { unfold data. rewrite map_app, in_app_iff. right. now left. }
      assert (n = v) as ->; [|exact Hg].
      unfold data in Hn. apply in_app_or in Hn.
      destruct Hn as [Hn | [<- | Hn]]; [|reflexivity|];
        exfalso; apply Hnin; rewrite <- Hidn; apply in_map, in_or_app; auto. }
    split; [|split; [exact Hst1|]].
    + rewrite validated_actions. unfold data.
      rewrite about_update_declared by assumption.
      now apply (itemActions_moved st B v {| filename := A; obj := v |}).
    + rewrite removed_actions, about_tracked, Hst1
        by (apply wfState_reconcile; exact Hwf).
      simpl. now rewrite (eqb_false_ne B A) by congruence.
  - intro st2.
    assert (Hst2 : Table.get (getId v) st2 = None).
    { unfold st2. rewrite removed_state, remove_state, Hget by exact Hwf.
      simpl. now rewrite (eqb_false_ne _ _ HX), String.eqb_refl. }
    split; [|split; [exact Hst2|]].
    + rewrite removed_actions, about_tracked, Hget by exact Hwf.
      simpl. now rewrite String.eqb_refl.
    + rewrite validated_actions. unfold data.
      rewrite about_update_declared
        by (try apply wfState_reconcile; assumption).
      now apply itemActions_absent.
Qed.

Lemma distinctIds_inj data n n' :
  distinctIds data -> In n data -> In n' data -> getId n = getId n' -> n = n'.
Proof.
  unfold distinctIds. induction data as [|x rest IH]; simpl; [tauto|].
  intros Hnd Hn Hn' Hid. inversion Hnd as [|? ? Hnotin Hnd']; subst.
  destruct Hn as [<- | Hn], Hn' as [<- | Hn']; auto.
  - exfalso. apply Hnotin. rewrite Hid. now apply in_map.
  - exfalso. apply Hnotin. rewrite <- Hid. now apply in_map.
Qed.

Lemma flat_map_nil {A B} (f : A -> list B) (l : list A) :
  (forall x, In x l -> f x = []) -> flat_map f l = [].
Proof.
  induction l as [|x l IH]; simpl; intro Hall; [reflexivity|].
  rewrite Hall by now left. apply IH. auto.
Qed.

(** C6, amended.  Let a list with pairwise distinct identities be
    processed for file [F] from a well-formed state in which an entry filed
    under [F] with the empty identity, if any, is declared by the list.
    Processing the same list for [F] again right away publishes nothing and
    leaves the state as it is. *)
Theorem redelivery_is_noop st F data :
  wfState st -> distinctIds data ->
  (forall e, Table.get "" st = Some e -> filename e = F ->
             In "" (map getId data)) ->
  let st1 := stateAfter (reconcile (Validated F data)) st in
  traceOf (reconcile (Validated F data)) st1 = []
  /\ stateAfter (reconcile (Validated F data)) st1 = st1.
Proof.
  intros Hwf Hdist Hempty st1.
  assert (Hwf1 : wfState st1) by now apply wfState_reconcile.
  assert (Hnone : updateConfigFile F data st1 = []).
  { unfold updateConfigFile.
    rewrite vanished_tracked by exact Hwf1.
    assert (Hvan : vanishingUnder F data st1 = []).
    { unfold vanishingUnder. apply filter_none. intros [k e] Hin. simpl.
      apply trackedUnder_In in Hin. destruct Hin as [Hin Hf].
      apply (wfState_In st1 k e Hwf1) in Hin.
      destruct (declaresId k data) eqn:Ed; [reflexivity|]. exfalso.
      apply declaresId_false in Ed.
      unfold st1 in Hin. rewrite validated_state in Hin.
      rewrite (update_state_undeclared st F data k Hwf Ed) in Hin.
      destruct (Table.get k st) as [e0|] eqn:Eg; [|discriminate].
      destruct (k =? "") eqn:Ek; simpl in Hin.
      - apply String.eqb_eq in Ek. subst k. injection Hin as ->.
        apply Ed. now apply (Hempty e).
      - rewrite <- Hf in Hin. destruct (filename e0 =? filename e) eqn:E2;
          [discriminate|].
        injection Hin as ->. now rewrite String.eqb_refl in E2. }
    rewrite Hvan. simpl.
    apply flat_map_nil. intros n Hn. apply itemActions_nil.
    unfold st1. rewrite validated_state.
    destruct (update_state_declared st F data (getId n) Hwf) as [n' [Hn' [Hid Hg]]];
      [now apply in_map|].
    now rewrite (distinctIds_inj data n' n Hdist Hn' Hn Hid) in Hg. }
  unfold traceOf, stateAfter. rewrite reconcile_validated, Hnone. auto.
Qed.

(** C7, amended.  Starting from a well-formed state, a file removal, or
    a validated list whose identities are pairwise distinct, publishes at
    most one action about any identity. *)
Theorem one_action_per_identity st (ev : FileEvent T) k :
  wfState st -> distinctIds (eventItems ev) ->
  (actionsAbout k (actionsOf (traceOf (reconcile ev) st)) <= 1)%nat.
Proof.
  intros Hwf Hdist. unfold actionsAbout. destruct ev as [F data | F].
  - rewrite validated_actions. unfold updateConfigFile.
    rewrite filter_app, length_app, about_vanished by exact Hwf.
    destruct (declaresId k data) eqn:Ed.
    + assert (Hv : List.length (match Table.get k st with
                                | Some e => if (filename e =? F) && negb true
                                            then [Remove k] else []
                                | None => []
                                end : list (ConfigSetAction T)) = 0%nat).
      { destruct (Table.get k st) as [e|]; [|reflexivity].
        now rewrite andb_false_r. }
      rewrite Hv. simpl.
      apply declaresId_In, in_map_iff in Ed. destruct Ed as [n [<- Hn]].
      apply in_split in Hn. destruct Hn as [before [after ->]].
      rewrite about_items_distinct; [apply itemActions_length|].
      simpl in Hdist. unfold distinctIds in Hdist.
      rewrite map_app in Hdist |- *. simpl in Hdist.
      now apply NoDup_remove_2.
    + apply declaresId_false in Ed. rewrite about_items_other by exact Ed.
      rewrite Nat.add_0_r.
      destruct (Table.get k st) as [e|]; [|simpl; lia].
      destruct ((filename e =? F) && negb false); simpl; lia.
  - rewrite removed_actions, about_tracked by exact Hwf.
    destruct (Table.get k st) as [e|]; [|simpl; lia].
    destruct (filename e =? F); simpl; lia.
Qed.

End FileEvents.

(** ** Mutation and publication go together *)

Section CommitOrder.

Context {T : Type} `{Item T}.
Implicit Types (s st : State T) (k F : string) (data : list T)
               (acts : list (ConfigSetAction T)).

Lemma committed_effective acts s :
  effective s acts -> committedInOrder s (traceOf (forEach tap acts) s).
Proof.
  revert s. induction acts as [|a acts IH]; intros s Heff; [exact I|].
  destruct Heff as [Ha Hrest].
  destruct (forEach_cons tap a acts s) as [_ ->].
  rewrite stateAfter_tap.
  assert (Hrun : traceOf (tap a) s = [StateNext (mutationOf a s); ChangesNext a]
                 /\ commit a s = mutationOf a s).
  { unfold traceOf. destruct a as [id item | id item | id | id item].
    - now rewrite (tap_set_run (Add id item) item) by auto.
    - now rewrite (tap_set_run (Update id item) item) by auto.
    - destruct Ha as [Hne Hget]. rewrite tap_remove_run. simpl.
      rewrite (eqb_false_ne _ _ Hne).
      destruct (Table.get id s) as [e|] eqn:Eg; [|congruence].
      rewrite (read_own id e s Eg). auto.
    - now rewrite (tap_set_run (Moved id item) item) by auto. }
  destruct Hrun as [-> Hc]. simpl. split; [reflexivity|].
  rewrite <- Hc. now apply IH.
Qed.

Lemma effective_app acts1 acts2 s :
  effective s acts1 -> effective (commitAll acts1 s) acts2 ->
  effective s (acts1 ++ acts2).
Proof.
  revert s. induction acts1 as [|a acts1 IH]; intros s H1 H2; [exact H2|].
  destruct H1 as [Ha H1]. split; [exact Ha|]. now apply IH.
Qed.

Lemma effective_items st F data s :
  effective s (flat_map (itemActions st F) data).
Proof.
  assert (Hall : forall a, In a (flat_map (itemActions st F) data) ->
                           isRemoveAction a = false).
  { intros a Ha. apply in_flat_map in Ha. destruct Ha as [n [_ Ha]].
    now apply (itemActions_shape st F n a). }
  revert s. induction (flat_map (itemActions st F) data) as [|a acts IH]; intro s;
    [exact I|].
  split.
  - specialize (Hall a (or_introl eq_refl)). now destruct a.
  - apply IH. intros b Hb. apply Hall. now right.
Qed.

Lemma effective_removes (l : list (string * ConfigSet T)) s :
  NoDup (map fst l) ->
  (forall p, In p l -> fst p <> "" /\ Table.get (fst p) s <> None) ->
  effective s (map (fun p => Remove (fst p)) l).
Proof.
  revert s. induction l as [|[i e] rest IH]; intros s Hnd Hall; [exact I|].
  inversion Hnd as [|? ? Hnotin Hnd']; subst.
  destruct (Hall (i, e) (or_introl eq_refl)) as [Hi Hg]. simpl in Hi, Hg.
  split; [now split|].
  apply IH; [exact Hnd'|].
  intros p Hp. destruct (Hall p (or_intror Hp)) as [Hp1 Hp2].
  split; [exact Hp1|]. simpl. rewrite (eqb_false_ne _ _ Hi).
  rewrite get_delete_other; [exact Hp2|].
  intros ->. apply Hnotin. now apply in_map.
Qed.

Lemma effective_tracked st F (l : list (string * ConfigSet T)) :
  wfState st ->
  (forall e, Table.get "" st = Some e -> filename e <> F) ->
  NoDup (map fst l) -> incl l (trackedUnder F st) ->
  effective st (map (fun p => Remove (fst p)) l).
Proof.
  intros Hwf Hempty Hnd Hincl. apply effective_removes; [exact Hnd|].
  intros [k e] Hp. apply Hincl, trackedUnder_In in Hp. destruct Hp as [Hin Hf].
  apply (wfState_In st k e Hwf) in Hin. simpl.
  split; [|congruence].
  intros ->. now apply (Hempty e).
Qed.

Lemma committed_reconcile st (ev : FileEvent T) :
  wfState st ->
  (forall e, Table.get "" st = Some e -> filename e <> eventFile ev) ->
  committedInOrder st (traceOf (reconcile ev) st).
Proof.
  intros Hwf Hempty.
  assert (Hnd : forall F, NoDup (map fst (trackedUnder F st))).
  { intro F. apply (wf_filter _ st), Hwf. }
  destruct ev as [F data | F]; simpl in Hempty; unfold traceOf.
  - rewrite reconcile_validated. apply committed_effective.
    unfold updateConfigFile. rewrite vanished_tracked by exact Hwf.
    apply effective_app; [|apply effective_items].
    apply (effective_tracked st F); auto.
    + apply (wf_filter _ (trackedUnder F st)), Hnd.
    + intros p Hp. unfold vanishingUnder in Hp. now apply filter_In in Hp.
  - rewrite reconcile_removed. apply committed_effective.
    rewrite removeConfigFile_tracked by exact Hwf.
    apply (effective_tracked st F); auto. apply incl_refl.
Qed.

Context `{Pipeline T}.

(** C8, amended.  From a well-formed state whose entry under the empty
    identity, if there is one, is not filed under the file of the
    notification, the trace of a file-change notification is a sequence of
    pairs: the state changed by the mutation of an action is published on
    [state$], and right after it the action is published on [changes$];
    the trace holds nothing else, so no action goes without its mutation
    and no mutation without its action. *)
Theorem commit_then_publish st (fc : ConfigFileChange) :
  wfState st ->
  (forall e, Table.get "" st = Some e -> filename e <> change_filename fc) ->
  committedInOrder st (traceOf (onFileChange fc) st).
Proof.
  intros Hwf Hempty. unfold traceOf, onFileChange.
  destruct (isRemove (change_type fc)).
  - now apply (committed_reconcile st (Removed (change_filename fc))).
  - destruct (validateConfigFile fc) as [F data | F err] eqn:Ev; [|exact I].
    apply (committed_reconcile st (Validated F data)); [exact Hwf|].
    simpl. replace F with (change_filename fc); [exact Hempty|].
    unfold validateConfigFile in Ev.
    destruct (if isBlank (change_content fc) then _ else _) as [e | d];
      [discriminate|].
    destruct (validateItems _ d); [discriminate | now injection Ev].
Qed.

End CommitOrder.

(** ** Sequences of file events *)

Section Sequences.

Context {T : Type} `{Item T}.
Implicit Types (s st : State T) (k F : string) (data : list T)
               (evs : list (FileEvent T)) (files : Table.t (list T)).

Lemma processAll_snoc evs (ev : FileEvent T) s :
  stateAfter (processAll (evs ++ [ev])) s
  = stateAfter (reconcile ev) (stateAfter (processAll evs) s).
Proof.
  unfold processAll.
  destruct (forEach_app reconcile evs [ev] s) as [-> _].
  destruct (forEach_cons reconcile ev [] (stateAfter (forEach reconcile evs) s))
    as [-> _].
  reflexivity.
Qed.

Lemma currentFiles_snoc evs (ev : FileEvent T) :
  currentFiles (evs ++ [ev]) = fileEventStep (currentFiles evs) ev.
Proof. unfold currentFiles. now rewrite fold_left_app. Qed.

Lemma currentFiles_In evs F data :
  In (F, data) (currentFiles evs) -> In (Validated F data) evs.
Proof.
  induction evs as [|ev evs IH] using rev_ind; [intros []|].
  rewrite currentFiles_snoc, in_app_iff. intro Hin.
  destruct ev as [F' data' | F']; simpl in Hin.
  - apply in_app_or in Hin. destruct Hin as [Hin | [[= -> ->] | []]].
    + left. apply IH. now apply In_delete in Hin.
    + right. now left.
  - left. apply IH. now apply In_delete in Hin.
Qed.

Lemma latestDeclaring_In k files F data :
  latestDeclaring k files = Some (F, data) ->
  In (F, data) files /\ declaresId k data = true.
Proof.
  induction files as [|[F' d'] rest IH]; simpl; [discriminate|].
  destruct (latestDeclaring k rest) as [r|].
  - intros [= ->]. destruct (IH eq_refl). auto.
  - destruct (declaresId k d') eqn:E; [|discriminate].
    intros [= -> ->]. auto.
Qed.

Lemma latestDeclaring_snoc k files F data :
  latestDeclaring k (files ++ [(F, data)])
  = if declaresId k data then Some (F, data) else latestDeclaring k files.
Proof.
  induction files as [|[F' d'] rest IH]; simpl.
  - now destruct (declaresId k data).
  - rewrite IH. now destruct (declaresId k data).
Qed.

Lemma latestDeclaring_delete_none k files F :
  latestDeclaring k files = None ->
  latestDeclaring k (Table.delete F files) = None.
Proof.
  induction files as [|[F' d'] rest IH]; simpl; [reflexivity|].
  destruct (latestDeclaring k rest) as [r|]; [discriminate|].
  destruct (declaresId k d') eqn:E; [discriminate|]. intros _.
  destruct (F' =? F); simpl; rewrite IH by reflexivity; [reflexivity|].
  now rewrite E.
Qed.

Lemma latestDeclaring_delete_other k files F G data :
  latestDeclaring k files = Some (G, data) -> G <> F ->
  latestDeclaring k (Table.delete F files) = Some (G, data).
Proof.
  intros Hl Hne. induction files as [|[F' d'] rest IH]; simpl in *; [discriminate|].
  destruct (latestDeclaring k rest) as [r|] eqn:Er.
  - injection Hl as ->.
    destruct (F' =? F); simpl; now rewrite IH.
  - destruct (declaresId k d') eqn:E; [|discriminate].
    injection Hl as -> ->.
    rewrite (eqb_false_ne _ _ Hne). simpl.
    now rewrite (latestDeclaring_delete_none k rest F Er), E.
Qed.

Lemma declaredItem_distinct k data n :
  distinctIds data -> In n data -> getId n = k -> declaredItem k data = Some n.
Proof.
  unfold distinctIds, declaredItem.
  induction data as [|x rest IH]; simpl; intros Hnd Hin Hid; [destruct Hin|].
  inversion Hnd as [|? ? Hnotin Hnd']; subst.
  destruct (getId x =? getId n) eqn:E.
  - destruct Hin as [-> | Hin]; [reflexivity|].
    apply String.eqb_eq in E. exfalso. apply Hnotin. rewrite E. now apply in_map.
  - destruct Hin as [-> | Hin]; [now rewrite String.eqb_refl in E | auto].
Qed.

(** The state built from the empty one by a sequence of events none of
    whose items has the empty identity: it is well formed, it holds
    nothing under the empty identity, and each entry is filed under the
    file with the latest event among those whose current list declares the
    identity, with an item of that list. *)
Lemma tracked_is_latest evs :
  (forall ev, In ev evs -> forall n, In n (eventItems ev) -> getId n <> "") ->
  let st := stateAfter (processAll evs) Table.empty in
  wfState st
  /\ Table.get "" st = None
  /\ forall k e, Table.get k st = Some e ->
       exists data, latestDeclaring k (currentFiles evs) = Some (filename e, data)
                    /\ In (obj e) data.
Proof.
  induction evs as [|ev evs IH] using rev_ind; intro Hids.
  - simpl. split; [apply wfState_empty|]. split; [reflexivity | discriminate].
  - assert (Hids' : forall ev', In ev' evs ->
              forall n, In n (eventItems ev') -> getId n <> "").
    { intros ev' Hin. apply Hids, in_or_app. now left. }
    destruct (IH Hids') as [Hwf [Hnil Hinv]]. clear IH.
    cbv zeta. rewrite processAll_snoc, currentFiles_snoc.
    set (st := stateAfter (processAll evs) Table.empty) in *.
    set (files := currentFiles evs) in *.
    assert (Hkeep : forall F k e,
              match Table.get k st with
              | Some e0 => if negb (k =? "") && (filename e0 =? F)
                           then None else Some e0
              | None => None
              end = Some e ->
              Table.get k st = Some e /\ filename e <> F).
    { intros F k e Hm.
      destruct (Table.get k st) as [e0|] eqn:Eg; [|discriminate].
      destruct (k =? "") eqn:Ek.
      - apply String.eqb_eq in Ek. subst k. congruence.
      - simpl in Hm. destruct (filename e0 =? F) eqn:Ef; [discriminate|].
        injection Hm as ->. apply String.eqb_neq in Ef. auto. }
    split; [now apply wfState_reconcile|].
    destruct ev as [F data | F]; simpl.
    + assert (Hnoempty : ~ In "" (map getId data)).
      { intro Hin. apply in_map_iff in Hin. destruct Hin as [n [Hid Hn]].
        apply (Hids (Validated F data)) in Hn; [contradiction|].
        apply in_or_app. right. now left. }
      rewrite validated_state. split.
      * rewrite update_state_undeclared, Hnil by assumption. reflexivity.
      * intros k e Hg. rewrite latestDeclaring_snoc.
        destruct (declaresId k data) eqn:Ed.
        -- apply declaresId_In in Ed.
           destruct (update_state_declared st F data k Hwf Ed) as [n [Hn [_ Hg']]].
           rewrite Hg' in Hg. injection Hg as <-. simpl. eauto.
        -- apply declaresId_false in Ed.
           rewrite update_state_undeclared in Hg by assumption.
           apply Hkeep in Hg. destruct Hg as [Hg Hf].
           destruct (Hinv k e Hg) as [d [Hl Hd]].
           exists d. split; [|exact Hd].
           now apply latestDeclaring_delete_other.
    + rewrite removed_state. split.
      * rewrite remove_state, Hnil by assumption. reflexivity.
      * intros k e Hg. rewrite remove_state in Hg by assumption.
        apply Hkeep in Hg. destruct Hg as [Hg Hf].
        destruct (Hinv k e Hg) as [d [Hl Hd]].
        exists d. split; [|exact Hd].
        now apply latestDeclaring_delete_other.
Qed.

(** C1, amended.  After any sequence of validated file events, starting
    from the empty state, in which no item has the empty identity and each
    list has pairwise distinct identities: for every identity [k] in the
    state, the entry under [k] is the item declared under [k] by the file
    with the latest event among the files whose current list declares [k],
    filed under that file. *)
Theorem state_tracks_latest_declaration evs :
  (forall ev, In ev evs -> forall n, In n (eventItems ev) -> getId n <> "") ->
  (forall ev, In ev evs -> distinctIds (eventItems ev)) ->
  forall k e,
    Table.get k (stateAfter (processAll evs) Table.empty) = Some e ->
    mostRecentlyValidated k evs = Some e.
Proof.
  intros Hids Hdist k e Hg.
  destruct (tracked_is_latest evs Hids) as [Hwf [_ Hinv]].
  destruct (Hinv k e Hg) as [data [Hl Hd]].
  unfold mostRecentlyValidated. rewrite Hl.
  destruct (latestDeclaring_In _ _ _ _ Hl) as [Hin _].
  apply currentFiles_In in Hin.
  rewrite (declaredItem_distinct k data (obj e)).
  - now destruct e.
  - apply (Hdist _ Hin).
  - exact Hd.
  - now apply (wfState_get _ k e Hwf).
Qed.

End Sequences.

(** ** The snapshot diff of the ConfigMap driver *)

Section DriverFacts.

Import Driver.

Variable base64Decode : string -> string.

Implicit Types (tbl store : Table.t string) (f : string)
               (ch : list ConfigFileChange) (decode : string -> string).

Lemma get_decoded decode tbl f :
  Table.get f (decoded decode tbl) = option_map decode (Table.get f tbl).
Proof.
  induction tbl as [|[k c] rest IH]; simpl; [reflexivity|].
  now destruct (k =? f).
Qed.

Lemma keys_decoded decode tbl : Table.keys (decoded decode tbl) = Table.keys tbl.
Proof. unfold Table.keys, decoded. rewrite map_map. reflexivity. Qed.

Lemma decoded_id tbl : decoded (fun s => s) tbl = tbl.
Proof.
  induction tbl as [|[k c] rest IH]; simpl; [reflexivity|]. now rewrite IH.
Qed.

Lemma changesFor_app f ch1 ch2 :
  changesFor f (ch1 ++ ch2) = changesFor f ch1 ++ changesFor f ch2.
Proof. apply filter_app. Qed.

Lemma changesFor_one f ty f' c :
  changesFor f [fileChange ty f' c]
  = if f' =? f then [fileChange ty f' c] else [].
Proof. reflexivity. Qed.

Lemma expected_about f old new (x : ConfigFileChange) :
  In x (expectedChanges f old new) -> change_filename x = f.
Proof.
  unfold expectedChanges.
  destruct old as [o|], new as [c|]; try destruct (o =? c); simpl;
    intros Hx; try tauto; destruct Hx as [<- | []]; reflexivity.
Qed.

Lemma sync_spec decode tbl ch0 store0 :
  Table.wf tbl ->
  let acc := fold_left (syncEntry decode) tbl (ch0, store0) in
  (forall f, changesFor f (fst acc)
             = changesFor f ch0
               ++ synced f (Table.get f store0) (Table.get f (decoded decode tbl)))
  /\ (forall f, Table.get f (snd acc)
                = match Table.get f (decoded decode tbl) with
                  | Some c => Some c
                  | None => Table.get f store0
                  end)
  /\ (Table.wf store0 -> Table.wf (snd acc)).
Proof.
  unfold Table.wf at 1.
  revert ch0 store0. induction tbl as [|[f0 raw0] rest IH]; intros ch0 store0 Hnd.
  - simpl. split; [|split]; auto. intro f. now rewrite app_nil_r.
  - inversion Hnd as [|? ? Hnotin Hnd']; subst. cbn [fold_left].
    set (c0 := decode raw0).
    (* the three outcomes of the loop body for the first entry *)
    assert (Hstep : exists ch1 store1,
               syncEntry decode (ch0, store0) (f0, raw0) = (ch1, store1)
               /\ ch1 = ch0 ++ expectedChanges f0 (Table.get f0 store0) (Some c0)
               /\ Table.get f0 store1 = Some c0
               /\ (forall f, f0 <> f -> Table.get f store1 = Table.get f store0)
               /\ (Table.wf store0 -> Table.wf store1)).
    { unfold syncEntry, Table.has. fold c0.
      destruct (Table.get f0 store0) as [o|] eqn:Eg; simpl.
      - destruct (o =? c0) eqn:Eo; simpl.
        + apply String.eqb_eq in Eo. subst o.
          exists ch0, store0. rewrite app_nil_r. auto.
        + exists (ch0 ++ [fileChange TUpdate f0 (Some c0)]), (Table.set f0 c0 store0).
          split; [reflexivity|]. split; [reflexivity|].
          split; [apply get_set_same|].
          split; [intros f Hf; now apply get_set_other | apply wf_set].
      - exists (ch0 ++ [fileChange TAdd f0 (Some c0)]), (Table.set f0 c0 store0).
        split; [reflexivity|]. split; [reflexivity|].
        split; [apply get_set_same|].
        split; [intros f Hf; now apply get_set_other | apply wf_set]. }
    destruct Hstep as [ch1 [store1 [-> [Hch1 [Hg0 [Hother Hwf1]]]]]].
    destruct (IH ch1 store1 Hnd') as [Hch [Hst Hwf]].
    assert (Habs : Table.get f0 (decoded decode rest) = None).
    { apply get_None_notin. now rewrite keys_decoded. }
    split; [|split].
    + intro f. rewrite Hch. simpl.
      destruct (f0 =? f) eqn:E.
      * apply String.eqb_eq in E. subst f.
        rewrite Habs, Hch1. simpl. rewrite app_nil_r, changesFor_app.
        f_equal. unfold synced. apply filter_all.
        intros x Hx. apply expected_about in Hx. rewrite Hx.
        apply String.eqb_refl.
      * apply String.eqb_neq in E.
        rewrite (Hother f E), Hch1, changesFor_app. f_equal.
        rewrite <- app_nil_r. f_equal. apply filter_none.
        intros x Hx. apply expected_about in Hx. rewrite Hx.
        now apply String.eqb_neq.
    + intro f. rewrite Hst. simpl.
      destruct (f0 =? f) eqn:E.
      * apply String.eqb_eq in E. subst f. now rewrite Habs.
      * apply String.eqb_neq in E. now rewrite (Hother f E).
    + auto.
Qed.

Lemma prune_spec tbl ks ch0 store0 :
  NoDup ks ->
  (forall f, changesFor f (fst (fold_left (pruneEntry tbl) ks (ch0, store0)))
             = changesFor f ch0
               ++ if existsb (String.eqb f) ks && negb (Table.has f tbl)
                  then [fileChange TRemove f None] else [])
  /\ (forall f, Table.get f (snd (fold_left (pruneEntry tbl) ks (ch0, store0)))
                = if existsb (String.eqb f) ks && negb (Table.has f tbl)
                  then None else Table.get f store0).
Proof.
  revert ch0 store0. induction ks as [|k ks IH]; intros ch0 store0 Hnd.
  - simpl. split; auto. intro f. now rewrite app_nil_r.
  - inversion Hnd as [|? ? Hnotin Hnd']; subst. cbn [fold_left existsb].
    assert (Hk : existsb (String.eqb k) ks = false).
    { destruct (existsb (String.eqb k) ks) eqn:E; [|reflexivity].
      apply existsb_exists in E. destruct E as [x [Hx Ex]].
      apply String.eqb_eq in Ex. subst x. contradiction. }
    unfold pruneEntry at 2 4.
    destruct (Table.has k tbl) eqn:Eh; cbn [negb].
    + destruct (IH ch0 store0 Hnd') as [Hch Hst].
      split; intro f; [rewrite Hch | rewrite Hst];
        destruct (f =? k) eqn:E; cbn [orb]; auto;
        apply String.eqb_eq in E; subst f; now rewrite Hk, Eh.
    + destruct (IH (ch0 ++ [fileChange TRemove k None]) (Table.delete k store0) Hnd')
        as [Hch Hst].
      split; intro f; [rewrite Hch | rewrite Hst];
        rewrite ?changesFor_app, ?changesFor_one, ?(String.eqb_sym k f);
        destruct (f =? k) eqn:E; cbn [orb andb].
      * apply String.eqb_eq in E. subst f. rewrite Hk, Eh. cbn [andb negb].
        now rewrite app_nil_r.
      * now rewrite app_nil_r.
      * apply String.eqb_eq in E. subst f. rewrite Hk. cbn [andb].
        now rewrite Eh, get_delete_same.
      * apply String.eqb_neq in E. rewrite get_delete_other by congruence.
        reflexivity.
Qed.

Lemma existsb_keys {V} (o : Table.t V) f :
  existsb (String.eqb f) (Table.keys o) = Table.has f o.
Proof.
  unfold Table.has. induction o as [|[k v] rest IH]; simpl; [reflexivity|].
  rewrite (String.eqb_sym f k). destruct (k =? f); simpl; auto.
Qed.

(** One guarded block, run on a table that is not empty with no change
    collected yet, is the diff of the store against that table. *)
Lemma diffTable_spec decode tbl store :
  Table.wf store -> Table.wf tbl -> tbl <> [] ->
  (forall f, changesFor f (fst (diffTable decode (Some tbl) ([], store)))
             = expectedChanges f (Table.get f store)
                               (Table.get f (decoded decode tbl)))
  /\ (forall f, Table.get f (snd (diffTable decode (Some tbl) ([], store)))
                = Table.get f (decoded decode tbl)).
Proof.
  intros Hws Hwt Hne. unfold diffTable.
  assert (Hguard : (0 <? List.length (Table.keys tbl))%nat = true).
  { destruct tbl; [congruence | reflexivity]. }
  rewrite Hguard.
  destruct (sync_spec decode tbl [] store Hwt) as [Hch1 [Hst1 Hwf1]].
  cbv zeta in Hch1, Hst1, Hwf1.
  set (acc1 := fold_left (syncEntry decode) tbl ([], store)) in *.
  pose proof (prune_spec tbl (Table.keys (snd acc1)) (fst acc1) (snd acc1)
                         (Hwf1 Hws)) as Hprune.
  rewrite <- surjective_pairing in Hprune. destruct Hprune as [Hch2 Hst2].
  assert (Hhas : forall f, Table.has f tbl
                 = match Table.get f (decoded decode tbl) with
                   | Some _ => true | None => false end).
  { intro f. unfold Table.has. rewrite get_decoded.
    now destruct (Table.get f tbl). }
  split; intro f.
  - rewrite Hch2, Hch1, existsb_keys, Hhas. unfold Table.has. rewrite Hst1.
    simpl. unfold synced.
    destruct (Table.get f (decoded decode tbl)) as [c|]; simpl.
    + now rewrite ?andb_false_r, ?app_nil_r.
    + now destruct (Table.get f store).
  - rewrite Hst2, existsb_keys, Hhas. unfold Table.has. rewrite Hst1.
    destruct (Table.get f (decoded decode tbl)) as [c|]; simpl.
    + now rewrite ?andb_false_r.
    + now destruct (Table.get f store).
Qed.

Lemma diffTable_empty decode o acc :
  isEmptyTable o = true -> diffTable decode o acc = acc.
Proof.
  destruct o as [[|p tbl]|]; simpl; [reflexivity | discriminate | reflexivity].
Qed.

(** C9, amended.  For an ADDED or MODIFIED event whose snapshot keeps
    its files in exactly one of [data] and [binaryData], and a store with
    distinct keys, the notifications about any filename are those of the
    diff of the store against the snapshot: one add for a new filename,
    one update for a filename whose content changed, one remove for a
    stored filename the snapshot lacks, and none for a filename whose
    content is unchanged or that neither side has; the store then holds the
    snapshot. *)
Theorem snapshot_diff (event : WatchEvent) store :
  isAddedOrModified (phase event) = true ->
  usesOneTable event = true ->
  Table.wf store ->
  Table.wf (snapshotOf base64Decode event) ->
  forall f,
    changesFor f (fst (onWatchEvent base64Decode event store))
    = expectedChanges f (Table.get f store)
                      (Table.get f (snapshotOf base64Decode event))
    /\ Table.get f (snd (onWatchEvent base64Decode event store))
       = Table.get f (snapshotOf base64Decode event).
Proof.
  intros Hphase Hone Hws Hwsnap f.
  assert (Hrun : onWatchEvent base64Decode event store
                 = addedModifiedConfigMap base64Decode event store).
  { unfold onWatchEvent. now destruct (phase event). }
  rewrite Hrun. clear Hrun Hphase.
  unfold addedModifiedConfigMap, usesOneTable, snapshotOf in *.
  destruct (apiObj event) as [o|]; [|discriminate].
  destruct (isEmptyTable (data o)) eqn:Ed, (isEmptyTable (binaryData o)) eqn:Eb;
    try discriminate.
  - (* only [binaryData] is populated *)
    rewrite (diffTable_empty _ (data o) _ Ed).
    assert (Hd : tableOf (data o) = []) by (now destruct (data o) as [[|? ?]|]).
    rewrite Hd in *. simpl app in *.
    destruct (binaryData o) as [tbl|]; [|discriminate]. simpl tableOf in *.
    destruct (diffTable_spec base64Decode tbl store Hws) as [Hch Hst]; auto.
    + unfold Table.wf in *. now rewrite keys_decoded in Hwsnap.
    + intros ->. discriminate.
  - (* only [data] is populated *)
    rewrite (diffTable_empty _ (binaryData o) _ Eb).
    assert (Hb : tableOf (binaryData o) = [])
      by (now destruct (binaryData o) as [[|? ?]|]).
    rewrite Hb in *. simpl decoded in *. rewrite app_nil_r in *.
    destruct (data o) as [tbl|]; [|discriminate]. simpl tableOf in *.
    destruct (diffTable_spec (fun s => s) tbl store Hws Hwsnap) as [Hch Hst].
    + intros ->. discriminate.
    + rewrite decoded_id in Hch, Hst. auto.
Qed.

End DriverFacts.

(** ** The properties at concrete inputs *)

Module Scenarios.

Import Sample.

Ltac concrete_wf :=
  split;
  [ unfold Table.wf; simpl; repeat constructor; simpl; intuition discriminate
  | intros k e Hin; simpl in Hin;
    repeat (destruct Hin as [Hin | Hin];
            [injection Hin as <- <-; reflexivity|]);
    destruct Hin ].

Ltac concrete_events :=
  let ev := fresh "ev" in
  let Hin := fresh "Hin" in
  intros ev Hin; simpl in Hin;
  repeat (destruct Hin as [<- | Hin]; [simpl|]); try (destruct Hin).

Lemma twoFiles_wf : wfState twoFiles.
Proof. concrete_wf. Qed.

Lemma emptyIdentity_wf : wfState emptyIdentity.
Proof. concrete_wf. Qed.

(** *** C1 *)

Lemma state_tracks_latest_declaration_witness :
  Table.get "y" (stateAfter (processAll moveScenario) Table.empty)
  = Some {| filename := "c.yaml"; obj := doc "y" 7 |}
  /\ mostRecentlyValidated "y" moveScenario
     = Some {| filename := "c.yaml"; obj := doc "y" 7 |}.
Proof.
  split; [reflexivity|].
  apply (state_tracks_latest_declaration moveScenario).
  - concrete_events; intros n Hn; simpl in Hn;
      repeat (destruct Hn as [<- | Hn]; [discriminate|]); destruct Hn.
  - concrete_events; unfold distinctIds; simpl;
      repeat constructor; simpl; tauto.
  - reflexivity.
Defined.

(** A document with the empty identity stays in the state after its file
    is removed, although no file declares it any more. *)
Lemma empty_identity_outlives_its_file :
  Table.get "" (stateAfter (processAll ghostScenario) Table.empty)
  = Some {| filename := "a.yaml"; obj := doc "" 1 |}
  /\ currentFiles ghostScenario = []
  /\ mostRecentlyValidated "" ghostScenario = None.
Proof. repeat split. Qed.

(** *** C2 *)

Lemma item_reconciliation_witness :
  let before := [doc "z" 3] in
  let this := itemActions twoFiles "a.yaml" (doc "x" 2) in
  let s1 := stateAfter
              (forEach tap
                 (flat_map (vanishedAction (before ++ [doc "x" 2]))
                           (stateArrayForFile twoFiles "a.yaml")
                  ++ flat_map (itemActions twoFiles "a.yaml") before))
              twoFiles in
  let s2 := stateAfter (forEach tap this) s1 in
  let a := Update "x" {| filename := "a.yaml"; obj := doc "x" 2 |} in
  Table.get "x" s1 = Some {| filename := "a.yaml"; obj := doc "x" 1 |}
  /\ (forall e, Table.get "x" s1 = Some e -> obj e <> doc "x" 2 ->
      this = [a]
      /\ traceOf (forEach tap this) s1 = [StateNext s2; ChangesNext a]
      /\ Table.get "x" s2 = Some {| filename := "a.yaml"; obj := doc "x" 2 |}
      /\ forall k, k <> "x" -> Table.get k s2 = Table.get k s1).
Proof.
  split; [reflexivity|].
  assert (Hfirst : ~ In (getId (doc "x" 2)) (map getId [doc "z" 3]))
    by (simpl; intuition discriminate).
  assert (Hinh : Obj.inherited (getId (doc "x" 2)) = false) by reflexivity.
  exact (proj1 (proj2 (proj2 (proj2
           (item_reconciliation twoFiles "a.yaml" [doc "z" 3] (doc "x" 2) []
                                Hfirst Hinh))))).
Defined.

(** Two documents of one file with the same identity, from the empty
    state: when the actions of the second are committed the state holds the
    identity with another payload, and the action published for it is
    [Add], not [Update]. *)
Lemma twin_is_added_not_updated :
  let first := itemActions (Table.empty : State Doc) "a.yaml" (doc "x" 1) in
  let second := itemActions (Table.empty : State Doc) "a.yaml" (doc "x" 2) in
  let s1 := stateAfter (forEach tap first) Table.empty in
  actionsOf (traceOf (reconcile (Validated "a.yaml" twins)) Table.empty)
  = first ++ second
  /\ Table.get "x" s1 = Some {| filename := "a.yaml"; obj := doc "x" 1 |}
  /\ doc "x" 1 <> doc "x" 2
  /\ second = [Add "x" {| filename := "a.yaml"; obj := doc "x" 2 |}]
  /\ second <> [Update "x" {| filename := "a.yaml"; obj := doc "x" 2 |}].
Proof. repeat split; discriminate. Qed.

(** *** C3 *)

Lemma failed_validation_is_atomic_witness :
  ((exists err, validateConfigFile (T := Doc) unparsable = Invalid "a.yaml" err)
   /\ traceOf (onFileChange unparsable) twoFiles = []
   /\ stateAfter (onFileChange unparsable) twoFiles = twoFiles)
  /\ ((exists err, validateConfigFile (T := Doc) invalidItem = Invalid "b.yaml" err)
      /\ traceOf (onFileChange invalidItem) twoFiles = []
      /\ stateAfter (onFileChange invalidItem) twoFiles = twoFiles).
Proof.
  split.
  - apply (failed_validation_is_atomic unparsable twoFiles "{");
      [reflexivity | reflexivity | discriminate | exact I].
  - apply (failed_validation_is_atomic invalidItem twoFiles "x");
      [reflexivity | reflexivity | discriminate |].
    simpl. exists (doc "x" 1). split; [now left | reflexivity].
Defined.

(** *** C4 *)

Lemma file_removal_complete_witness :
  let acts := actionsOf (traceOf (reconcile (Removed "a.yaml")) twoFiles) in
  let st' := stateAfter (reconcile (Removed "a.yaml")) twoFiles in
  acts = map (fun p => Remove (fst p)) (trackedUnder "a.yaml" twoFiles)
  /\ List.length acts = List.length (trackedUnder "a.yaml" twoFiles)
  /\ st' = filter (fun p => negb (filename (snd p) =? "a.yaml")) twoFiles
  /\ trackedUnder "a.yaml" st' = []
  /\ (forall k e, Table.get k twoFiles = Some e -> filename e = "a.yaml" ->
                  Table.get k st' = None)
  /\ (forall k e, Table.get k twoFiles = Some e -> filename e <> "a.yaml" ->
                  Table.get k st' = Some e).
Proof.
  apply (file_removal_complete twoFiles "a.yaml").
  - exact twoFiles_wf.
  - simpl. discriminate.
Defined.

(** The removal of [a.yaml] publishes the one [Remove] for the one entry
    filed under it, and the entry is still there afterwards. *)
Lemma file_removal_keeps_empty_identity :
  let acts := actionsOf (traceOf (reconcile (Removed "a.yaml")) emptyIdentity) in
  let st' := stateAfter (reconcile (Removed "a.yaml")) emptyIdentity in
  wfState emptyIdentity
  /\ List.length (trackedUnder "a.yaml" emptyIdentity) = 1%nat
  /\ acts = [Remove ""]
  /\ trackedUnder "a.yaml" st' <> []
  /\ st' = emptyIdentity.
Proof.
  split; [exact emptyIdentity_wf|]. repeat split. discriminate.
Qed.

(** *** C5 *)

Lemma move_is_deterministic_witness :
  (let st1 := stateAfter (reconcile (Validated "c.yaml" [doc "y" 7])) twoFiles in
   filter (aboutId "y")
     (actionsOf (traceOf (reconcile (Validated "c.yaml" [doc "y" 7])) twoFiles))
   = [Moved "y" {| filename := "c.yaml"; obj := doc "y" 7 |}]
   /\ Table.get "y" st1 = Some {| filename := "c.yaml"; obj := doc "y" 7 |}
   /\ filter (aboutId "y") (actionsOf (traceOf (reconcile (Removed "b.yaml")) st1))
      = [])
  /\
  (let st2 := stateAfter (reconcile (Removed "b.yaml")) twoFiles in
   filter (aboutId "y") (actionsOf (traceOf (reconcile (Removed "b.yaml")) twoFiles))
   = [Remove "y"]
   /\ Table.get "y" st2 = None
   /\ filter (aboutId "y")
        (actionsOf (traceOf (reconcile (Validated "c.yaml" [doc "y" 7])) st2))
      = [Add "y" {| filename := "c.yaml"; obj := doc "y" 7 |}]).
Proof.
  apply (move_is_deterministic twoFiles "b.yaml" "c.yaml" "y" (doc "y" 7) [] []).
  - discriminate.
  - reflexivity.
  - discriminate.
  - exact twoFiles_wf.
  - reflexivity.
  - simpl. tauto.
Defined.

(** With the empty identity moved from [a.yaml] to [b.yaml] and the
    removal of [a.yaml] processed first, [Remove] is published, the entry
    stays, and the event of [b.yaml] publishes [Moved], not [Add]. *)
Lemma empty_identity_move_has_no_add :
  let st2 := stateAfter (reconcile (Removed "a.yaml")) emptyIdentity in
  filter (aboutId "")
    (actionsOf (traceOf (reconcile (Removed "a.yaml")) emptyIdentity))
  = [Remove ""]
  /\ filter (aboutId "")
       (actionsOf (traceOf (reconcile (Validated "b.yaml" [doc "" 1])) st2))
     = [Moved "" {| filename := "b.yaml"; obj := doc "" 1 |}]
  /\ filter (aboutId "")
       (actionsOf (traceOf (reconcile (Validated "b.yaml" [doc "" 1])) st2))
     <> [Add "" {| filename := "b.yaml"; obj := doc "" 1 |}].
Proof. repeat split. discriminate. Qed.

(** *** C6 *)

Lemma redelivery_is_noop_witness :
  let data := [doc "x" 2; doc "z" 3] in
  let st1 := stateAfter (reconcile (Validated "a.yaml" data)) twoFiles in
  traceOf (reconcile (Validated "a.yaml" data)) st1 = []
  /\ stateAfter (reconcile (Validated "a.yaml" data)) st1 = st1.
Proof.
  apply (redelivery_is_noop twoFiles "a.yaml" [doc "x" 2; doc "z" 3]).
  - exact twoFiles_wf.
  - unfold distinctIds. simpl. repeat constructor; simpl; intuition discriminate.
  - simpl. discriminate.
Defined.

(** A list with two documents of the same identity, delivered twice in a
    row from the empty state: the second delivery publishes an [Update]
    and changes the state. *)
Lemma redelivery_of_twins_updates :
  let st1 := stateAfter (reconcile (Validated "a.yaml" twins)) Table.empty in
  actionsOf (traceOf (reconcile (Validated "a.yaml" twins)) st1)
  = [Update "x" {| filename := "a.yaml"; obj := doc "x" 1 |}]
  /\ traceOf (reconcile (Validated "a.yaml" twins)) st1 <> []
  /\ stateAfter (reconcile (Validated "a.yaml" twins)) st1 <> st1.
Proof. repeat split; discriminate. Qed.

(** *** C7 *)

Lemma one_action_per_identity_witness :
  (actionsAbout "x"
     (actionsOf (traceOf (reconcile (Validated "a.yaml" [doc "x" 2; doc "z" 3]))
                         twoFiles)) <= 1)%nat.
Proof.
  apply (one_action_per_identity twoFiles
           (Validated "a.yaml" [doc "x" 2; doc "z" 3]) "x").
  - exact twoFiles_wf.
  - unfold distinctIds. simpl. repeat constructor; simpl; intuition discriminate.
Defined.

(** Two documents with the same identity in one list give two [Add]
    actions for that identity in one event. *)
Lemma twins_are_added_twice :
  actionsOf (traceOf (reconcile (Validated "a.yaml" twins)) Table.empty)
  = [Add "x" {| filename := "a.yaml"; obj := doc "x" 1 |};
     Add "x" {| filename := "a.yaml"; obj := doc "x" 2 |}]
  /\ actionsAbout "x"
       (actionsOf (traceOf (reconcile (Validated "a.yaml" twins)) Table.empty))
     = 2%nat.
Proof. split; reflexivity. Qed.

(** *** C8 *)

Lemma commit_then_publish_witness :
  committedInOrder twoFiles (traceOf (onFileChange movedIn) twoFiles)
  /\ committedInOrder twoFiles (traceOf (onFileChange removedA) twoFiles).
Proof.
  split.
  - apply (commit_then_publish twoFiles movedIn);
      [exact twoFiles_wf | simpl; discriminate].
  - apply (commit_then_publish twoFiles removedA);
      [exact twoFiles_wf | simpl; discriminate].
Defined.

(** The removal of [a.yaml] publishes [Remove] for the empty identity
    with no mutation of the state before it. *)
Lemma remove_published_without_mutation :
  traceOf (onFileChange removedA) emptyIdentity = [ChangesNext (Remove "")]
  /\ stateAfter (onFileChange removedA) emptyIdentity = emptyIdentity
  /\ ~ committedInOrder emptyIdentity (traceOf (onFileChange removedA) emptyIdentity).
Proof. repeat split. intros []. Qed.

(** *** C9 *)

Lemma snapshot_diff_witness :
  let store := [("a", "1"); ("b", "2"); ("c", "3")] in
  let event := modified (Some [("a", "1"); ("b", "9"); ("d", "4")]) None in
  let result := Driver.onWatchEvent (fun s => s) event store in
  fst result = [Driver.fileChange TUpdate "b" (Some "9");
                Driver.fileChange TAdd "d" (Some "4");
                Driver.fileChange TRemove "c" None]
  /\ (Driver.changesFor "c" (fst result) = [Driver.fileChange TRemove "c" None]
      /\ Table.get "c" (snd result) = None).
Proof.
  split; [reflexivity|].
  apply (snapshot_diff (fun s => s)
           (modified (Some [("a", "1"); ("b", "9"); ("d", "4")]) None)
           [("a", "1"); ("b", "2"); ("c", "3")]).
  - reflexivity.
  - reflexivity.
  - unfold Table.wf. simpl. repeat constructor; simpl; intuition discriminate.
  - unfold Table.wf. simpl. repeat constructor; simpl; intuition discriminate.
Defined.

(** A MODIFIED event for a ConfigMap that has no file left: the stored
    file is absent from the new snapshot, no remove is published and the
    store keeps the file. *)
Lemma emptied_snapshot_removes_nothing :
  let store := [("a", "1")] in
  let event := modified None None in
  let result := Driver.onWatchEvent (fun s => s) event store in
  Table.get "a" (Driver.snapshotOf (fun s => s) event) = None
  /\ Driver.expectedChanges "a" (Table.get "a" store)
       (Table.get "a" (Driver.snapshotOf (fun s => s) event))
     = [Driver.fileChange TRemove "a" None]
  /\ Driver.changesFor "a" (fst result) = []
  /\ Table.get "a" (snd result) = Some "1".
Proof. repeat split. Qed.

(** *** C10 *)

(** C10.  [removeSet] called with [toString], an id the state does not
    hold: the destructuring finds the function inherited from
    [Object.prototype], so the call does not return [undefined] and it
    publishes a state on [state$]. *)
Theorem removeSet_returns_inherited_value :
  Table.get "toString" (Table.empty : State Doc) = None
  /\ removeSet "toString" (Table.empty : State Doc)
     = (Obj.Inherited "toString", Table.empty, [StateNext Table.empty])
  /\ resultOf (removeSet "toString") (Table.empty : State Doc) <> Obj.Undefined
  /\ traceOf (removeSet "toString") (Table.empty : State Doc) <> [].
Proof. repeat split; discriminate. Qed.

End Scenarios.


(** ** Further properties of the engine *)

Section EngineExtras.

Context {T : Type} `{Item T}.
Implicit Types (s st : State T) (k F : string) (data arr : list T).

Lemma getIndexOfIdFrom_split (i : Z) k arr :
  (getIndexOfIdFrom i k arr = (-1)%Z /\ ~ In k (map getId arr))
  \/ exists before item after,
       arr = before ++ item :: after
       /\ getIndexOfIdFrom i k arr = (i + Z.of_nat (List.length before))%Z
       /\ getId item = k
       /\ ~ In k (map getId before).
Proof.
  revert i. induction arr as [|x rest IH]; intro i; simpl.
  - left. tauto.
  - destruct (getId x =? k) eqn:E.
    + apply String.eqb_eq in E. right. exists [], x, rest. simpl.
      repeat split; auto. lia.
    + apply String.eqb_neq in E.
      destruct (IH (i + 1)%Z) as [[Hm Hn] | [before [item [after [-> [Hi [Hid Hn]]]]]]].
      * left. split; [exact Hm | tauto].
      * right. exists (x :: before), item, after. simpl.
        repeat split; auto; [lia | tauto].
Qed.

(** X1. [getIndexOfId] answers [-1] exactly when no item of the array has
    the identity; otherwise it answers the position of the first item that
    has it, counted from zero. *)
Theorem getIndexOfId_first_match (existingId : string) arr :
  (getIndexOfId existingId arr = (-1)%Z <-> ~ In existingId (map getId arr))
  /\ (getIndexOfId existingId arr <> (-1)%Z ->
      exists before item after,
        arr = before ++ item :: after
        /\ getIndexOfId existingId arr = Z.of_nat (List.length before)
        /\ getId item = existingId
        /\ ~ In existingId (map getId before)).
Proof.
  unfold getIndexOfId.
  destruct (getIndexOfIdFrom_split 0%Z existingId arr)
    as [[Hm Hn] | [before [item [after [Harr [Hi [Hid Hn]]]]]]].
  - split; [tauto | congruence].
  - split.
    + split; [lia|]. intro Hnot. exfalso. apply Hnot. rewrite Harr, map_app.
      apply in_or_app. right. left. exact Hid.
    + intros _. exists before, item, after. repeat split; auto.
Qed.

(** X2. [addOrUpdateSet] returns its set, publishes the new state and
    stores the set under the identity of its payload, whatever that
    identity is, leaving the other identities alone.  When the identity is
    not empty, [removeSet] then returns the same set, the identity is gone
    and the other identities are still as they were at the start; if the
    identity was new, the state is the starting one.  When the identity is
    empty, [removeSet] returns [undefined], publishes nothing and the
    entry stays. *)
Theorem add_then_remove_round_trip (cs : ConfigSet T) st :
  let id := getId (obj cs) in
  let s1 := stateAfter (addOrUpdateSet (Some cs)) st in
  let s2 := stateAfter (removeSet id) s1 in
  resultOf (addOrUpdateSet (Some cs)) st = Some cs
  /\ traceOf (addOrUpdateSet (Some cs)) st = [StateNext s1]
  /\ Table.get id s1 = Some cs
  /\ (forall k, k <> id -> Table.get k s1 = Table.get k st)
  /\ (id <> "" ->
      resultOf (removeSet id) s1 = Obj.Own cs
      /\ Table.get id s2 = None
      /\ (forall k, k <> id -> Table.get k s2 = Table.get k st)
      /\ (Table.get id st = None -> s2 = st))
  /\ (id = "" -> removeSet id s1 = (Obj.Undefined, s1, [])).
Proof.
  intros id s1 s2.
  assert (Hrun1 : addOrUpdateSet (Some cs) st
                  = (Some cs, Obj.set id cs st, [StateNext (Obj.set id cs st)])).
  { unfold addOrUpdateSet, bind, getState. simpl. fold id.
    now destruct (Table.has id st). }
  assert (Hs1 : s1 = Obj.set id cs st).
  { unfold s1, stateAfter. now rewrite Hrun1. }
  assert (Hg1 : Table.get id s1 = Some cs)
    by (rewrite Hs1; apply obj_get_set_same).
  split; [unfold resultOf; now rewrite Hrun1|].
  split; [unfold traceOf; now rewrite Hrun1, Hs1|].
  split; [exact Hg1|]. split.
  { intros k Hk. rewrite Hs1. apply obj_get_set_other. congruence. }
  split.
  - intro Hne.
    assert (Hrun : removeSet id s1
                   = (Obj.Own cs, Table.delete id s1,
                      [StateNext (Table.delete id s1)])).
    { unfold removeSet, bind, getState.
      rewrite (eqb_false_ne id "" Hne), (read_own id cs s1 Hg1). reflexivity. }
    assert (Hs2 : s2 = Table.delete id s1).
    { unfold s2, stateAfter. now rewrite Hrun. }
    split; [unfold resultOf; now rewrite Hrun|]. split.
    { rewrite Hs2. apply get_delete_same. }
    split.
    + intros k Hk.
      rewrite Hs2, Hs1, get_delete_other, obj_get_set_other; congruence.
    + intro Hfresh. rewrite Hs2, Hs1. now apply obj_delete_set_fresh.
  - intro Hempty. unfold removeSet. now rewrite Hempty.
Qed.

Lemma in_itemActions st F n a :
  In a (itemActions st F n) ->
  match a with
  | Add id item =>
      Table.get id st = None /\ Obj.inherited id = false
      /\ item = {| filename := F; obj := n |} /\ id = getId n
  | Update id item =>
      ((exists e, Table.get id st = Some e /\ obj e <> n)
       \/ (Table.get id st = None /\ Obj.inherited id = true))
      /\ item = {| filename := F; obj := n |} /\ id = getId n
  | Moved id item =>
      (exists e, Table.get id st = Some e /\ obj e = n /\ filename e <> F)
      /\ item = {| filename := F; obj := n |} /\ id = getId n
  | Remove _ => False
  end.
Proof.
  unfold itemActions, Obj.read.
  destruct (Table.get (getId n) st) as [e|] eqn:Eg.
  - destruct (equal (obj e) n) eqn:Ee; simpl.
    + apply equal_spec in Ee.
      destruct (filename e =? F) eqn:Ef; simpl; [tauto|].
      apply String.eqb_neq in Ef.
      intros [<- | []]. rewrite Ee. repeat split; eauto.
    + intros [<- | []]. repeat split; auto.
      left. exists e. split; [exact Eg|]. intro Heq.
      rewrite Heq, equal_refl in Ee. discriminate.
  - destruct (Obj.inherited (getId n)) eqn:Ei.
    + intros [<- | []]. repeat split; auto.
    + intros [<- | []]. auto.
Qed.

(** X3. Every action published for a validated list of file [F] from a
    well-formed state is called for by the state the event found: an [Add]
    names an identity the state did not hold and [Object.prototype] has no
    property for, an [Update] one held with another payload, or one not
    held that [Object.prototype] has a property for, a [Moved] one held
    with the same payload under another file, and each of the three
    carries an item of the list under its own identity, filed under [F]; a
    [Remove] names an identity the state held under [F] that the list does
    not declare. *)
Theorem published_actions_are_justified st F data (a : ConfigSetAction T) :
  wfState st ->
  In a (actionsOf (traceOf (reconcile (Validated F data)) st)) ->
  match a with
  | Add id item =>
      (Table.get id st = None /\ Obj.inherited id = false)
      /\ filename item = F /\ In (obj item) data /\ getId (obj item) = id
  | Update id item =>
      ((exists e, Table.get id st = Some e /\ obj e <> obj item)
       \/ (Table.get id st = None /\ Obj.inherited id = true))
      /\ filename item = F /\ In (obj item) data /\ getId (obj item) = id
  | Moved id item =>
      (exists e, Table.get id st = Some e /\ obj e = obj item
                 /\ filename e <> F)
      /\ filename item = F /\ In (obj item) data /\ getId (obj item) = id
  | Remove id =>
      (exists e, Table.get id st = Some e /\ filename e = F)
      /\ ~ In id (map getId data)
  end.
Proof.
  intros Hwf Hin. rewrite validated_actions in Hin. unfold updateConfigFile in Hin.
  apply in_app_or in Hin. destruct Hin as [Hin | Hin].
  - rewrite vanished_tracked in Hin by exact Hwf.
    apply in_map_iff in Hin. destruct Hin as [[k e] [<- Hp]]. simpl.
    unfold vanishingUnder in Hp. apply filter_In in Hp. destruct Hp as [Hp Hd].
    simpl in Hd. apply negb_true_iff, declaresId_false in Hd.
    apply trackedUnder_In in Hp. destruct Hp as [Hp Hf].
    split; [|exact Hd]. exists e. split; [|exact Hf]. now apply wfState_In.
  - apply in_flat_map in Hin. destruct Hin as [n [Hn Ha]].
    apply in_itemActions in Ha.
    destruct a as [id item | id item | id | id item].
    + destruct Ha as [Hg [Hi [-> ->]]]. simpl. auto.
    + destruct Ha as [Hg [-> ->]]. simpl. auto.
    + destruct Ha.
    + destruct Ha as [Hg [-> ->]]. simpl. auto.
Qed.

(** X4. Within one file event no [Remove] is published after an [Add],
    [Update] or [Moved]: the removals of the vanished identities all come
    first. *)
Theorem removes_come_first st (ev : FileEvent T) :
  exists removes others,
    actionsOf (traceOf (reconcile ev) st) = removes ++ others
    /\ (forall a, In a removes -> isRemoveAction a = true)
    /\ (forall a, In a others -> isRemoveAction a = false).
Proof.
  destruct ev as [F data | F].
  - exists (flat_map (vanishedAction data) (stateArrayForFile st F)),
           (flat_map (itemActions st F) data).
    split; [apply validated_actions|]. split.
    + intros a Ha. apply in_flat_map in Ha. destruct Ha as [e [_ Ha]].
      unfold vanishedAction in Ha.
      destruct (getIndexOfId (getId (obj e)) data =? -1)%Z; [|destruct Ha].
      destruct Ha as [<- | []]. reflexivity.
    + intros a Ha. apply in_flat_map in Ha. destruct Ha as [n [_ Ha]].
      now apply (itemActions_shape st F n a).
  - exists (removeConfigFile F st), []. rewrite app_nil_r.
    split; [apply removed_actions|]. split; [|intros a []].
    intros a Ha. unfold removeConfigFile in Ha.
    apply in_map_iff in Ha. destruct Ha as [e [<- _]]. reflexivity.
Qed.

(** X5. After a validated list for file [F] is processed from a
    well-formed state, every identity the list declares is held under [F]
    with an item of the list that has this identity.  An identity the list
    does not declare keeps its entry when that entry is filed under another
    file or when the identity is empty, loses it when the entry is filed
    under [F] and the identity is not empty, and stays absent when it was
    absent. *)
Theorem state_after_validated_list st F data :
  wfState st ->
  let st' := stateAfter (reconcile (Validated F data)) st in
  (forall k, In k (map getId data) ->
     exists n, In n data /\ getId n = k
               /\ Table.get k st' = Some {| filename := F; obj := n |})
  /\ (forall k, ~ In k (map getId data) ->
        Table.get k st'
        = match Table.get k st with
          | Some e => if negb (k =? "") && (filename e =? F)
                      then None else Some e
          | None => None
          end).
Proof.
  intros Hwf st'. unfold st'. rewrite validated_state. split.
  - intros k Hk. now apply update_state_declared.
  - intros k Hk. now apply update_state_undeclared.
Qed.

(** X6. After the removal of file [F] is processed from a well-formed
    state, an entry is gone exactly when it was filed under [F] with an
    identity that is not empty; every other entry is as it was and no
    entry appears. *)
Theorem state_after_file_removal st F k :
  wfState st ->
  Table.get k (stateAfter (reconcile (Removed F)) st)
  = match Table.get k st with
    | Some e => if negb (k =? "") && (filename e =? F) then None else Some e
    | None => None
    end.
Proof.
  intro Hwf. rewrite removed_state. now apply remove_state.
Qed.

Context `{Pipeline T}.

(** X7. [validateConfigFile] yields the list variant exactly in these
    cases, always with the filename of the notification: the content is
    null or trims to the empty string and the list is empty, or
    [yaml.loadAll] returns the list and every item of it passes the
    validator. *)
Theorem accepted_list_is_parsed_and_valid (fc : ConfigFileChange) F data :
  validateConfigFile fc = Valid F data
  <-> F = change_filename fc
      /\ (forall n, In n data -> validate n = true)
      /\ match change_content fc with
         | None => data = []
         | Some c => if trim c =? "" then data = [] else loadAll c = inr data
         end.
Proof.
  unfold validateConfigFile, isBlank.
  destruct (change_content fc) as [c|].
  - destruct (trim c =? "").
    + simpl. split.
      * intros [= <- <-]. repeat split. intros n [].
      * intros [-> [_ ->]]. reflexivity.
    + destruct (loadAll c) as [err | parsed].
      * split; [discriminate | intros [_ [_ Hp]]; discriminate].
      * destruct (validateItems (change_filename fc) parsed) eqn:Ev.
        -- split; [discriminate|]. intros [_ [Hall [= ->]]].
           apply (validateItems_valid (change_filename fc)) in Hall.
           rewrite Hall in Ev. discriminate.
        -- split.
           ++ intros [= <- <-]. repeat split.
              now apply (validateItems_valid (change_filename fc)).
           ++ intros [-> [_ [= ->]]]. reflexivity.
  - simpl. split.
    + intros [= <- <-]. repeat split. intros n [].
    + intros [-> [_ ->]]. reflexivity.
Qed.

Lemma updateConfigFile_nil F st :
  updateConfigFile F [] st = removeConfigFile F st.
Proof.
  unfold updateConfigFile, removeConfigFile. simpl. rewrite app_nil_r.
  induction (stateArrayForFile st F) as [|e rest IH]; simpl; [reflexivity|].
  now rewrite IH.
Qed.

(** X8. An [add] or [update] notification whose content is null or trims
    to the empty string is processed exactly as the removal of its file:
    the same publications in the same order and the same state. *)
Theorem blank_content_acts_as_removal (fc : ConfigFileChange) st :
  isRemove (change_type fc) = false ->
  isBlank (change_content fc) = true ->
  onFileChange fc st = reconcile (Removed (change_filename fc)) st.
Proof.
  intros Hty Hblank. unfold onFileChange, validateConfigFile.
  rewrite Hty, Hblank. simpl.
  now rewrite reconcile_validated, reconcile_removed, updateConfigFile_nil.
Qed.

Lemma wfState_onFileChange (fc : ConfigFileChange) st :
  wfState st -> wfState (stateAfter (onFileChange fc) st).
Proof.
  intro Hwf. unfold onFileChange.
  destruct (isRemove (change_type fc)); [now apply wfState_reconcile|].
  destruct (validateConfigFile fc) as [F data | F err];
    [now apply wfState_reconcile | exact Hwf].
Qed.

Lemma wfState_notifications (fcs : list ConfigFileChange) st :
  wfState st -> wfState (stateAfter (forEach onFileChange fcs) st).
Proof.
  revert st. induction fcs as [|fc fcs IH]; intros st Hwf; [exact Hwf|].
  destruct (forEach_cons onFileChange fc fcs st) as [-> _].
  apply IH. now apply wfState_onFileChange.
Qed.

(** X9. Whatever notifications the engine has processed since it started
    with the empty state, accepted or rejected, the state has at most one
    entry per key and every entry is stored under the identity of its own
    payload. *)
Theorem reachable_states_are_well_formed (fcs : list ConfigFileChange) :
  let st := stateAfter (forEach onFileChange fcs) (Table.empty : State T) in
  NoDup (Table.keys st) /\ forall k e, In (k, e) st -> getId (obj e) = k.
Proof.
  apply (wfState_notifications fcs Table.empty), wfState_empty.
Qed.

End EngineExtras.

(** ** Further properties of the drivers *)

Section DriverExtras.

Import Driver.

Variable base64Decode : string -> string.

Implicit Types (tbl store files : Table.t string) (f : string)
               (ch : list ConfigFileChange) (decode : string -> string).

Lemma replay_app files ch1 ch2 :
  Stream.replay files (ch1 ++ ch2)
  = match Stream.replay files ch1 with
    | Some files' => Stream.replay files' ch2
    | None => None
    end.
Proof.
  revert files. induction ch1 as [|c ch1 IH]; intro files; simpl; [reflexivity|].
  destruct (Stream.applyChange files c); [apply IH | reflexivity].
Qed.

Lemma replay_snoc files ch c store store' :
  Stream.replay files ch = Some store ->
  Stream.applyChange store c = Some store' ->
  Stream.replay files (ch ++ [c]) = Some store'.
Proof.
  intros Hr Ha. rewrite replay_app, Hr. simpl. now rewrite Ha.
Qed.

Lemma has_keys {V} (o : Table.t V) f : In f (Table.keys o) <-> Table.has f o = true.
Proof.
  rewrite has_get. split.
  - intros Hin Hg. now apply get_None_notin in Hg.
  - intro Hg. destruct (in_dec string_dec f (Table.keys o)) as [Hin | Hnin];
      [exact Hin|]. now apply get_None_notin in Hnin.
Qed.

Lemma syncEntry_step decode ch0 store0 (entry : string * string) files :
  Stream.replay files ch0 = Some store0 ->
  Stream.replay files (fst (syncEntry decode (ch0, store0) entry))
  = Some (snd (syncEntry decode (ch0, store0) entry))
  /\ (Table.wf store0 -> Table.wf (snd (syncEntry decode (ch0, store0) entry))).
Proof.
  intro Hr. destruct entry as [f0 raw0]. unfold syncEntry.
  destruct (Table.has f0 store0) eqn:Eh; simpl.
  - unfold Table.has in Eh.
    destruct (Table.get f0 store0) as [o|] eqn:Eg; [|discriminate]. simpl.
    destruct (o =? decode raw0) eqn:Eo; simpl.
    + auto.
    + split; [|apply wf_set].
      apply (replay_snoc files ch0 _ store0); [exact Hr|].
      unfold Stream.applyChange. simpl. now rewrite Eg, Eo.
  - split; [|apply wf_set].
    apply (replay_snoc files ch0 _ store0); [exact Hr|].
    unfold Stream.applyChange. simpl. now rewrite Eh.
Qed.

Lemma sync_replay decode (entries : list (string * string)) ch0 store0 files :
  Stream.replay files ch0 = Some store0 ->
  Stream.replay files (fst (fold_left (syncEntry decode) entries (ch0, store0)))
  = Some (snd (fold_left (syncEntry decode) entries (ch0, store0)))
  /\ (Table.wf store0 ->
      Table.wf (snd (fold_left (syncEntry decode) entries (ch0, store0)))).
Proof.
  revert ch0 store0. induction entries as [|entry rest IH]; intros ch0 store0 Hr.
  - simpl. auto.
  - cbn [fold_left].
    destruct (syncEntry_step decode ch0 store0 entry files Hr) as [Hr1 Hw1].
    destruct (syncEntry decode (ch0, store0) entry) as [ch1 store1].
    destruct (IH ch1 store1 Hr1) as [Hr2 Hw2]. auto.
Qed.

Lemma prune_replay tbl (ks : list string) ch0 store0 files :
  NoDup ks ->
  (forall k, In k ks -> Table.has k store0 = true) ->
  Stream.replay files ch0 = Some store0 ->
  Stream.replay files (fst (fold_left (pruneEntry tbl) ks (ch0, store0)))
  = Some (snd (fold_left (pruneEntry tbl) ks (ch0, store0)))
  /\ (Table.wf store0 ->
      Table.wf (snd (fold_left (pruneEntry tbl) ks (ch0, store0)))).
Proof.
  revert ch0 store0. induction ks as [|k ks IH]; intros ch0 store0 Hnd Hall Hr.
  - simpl. auto.
  - inversion Hnd as [|? ? Hnotin Hnd']; subst. cbn [fold_left].
    unfold pruneEntry at 2 4 6.
    destruct (Table.has k tbl); cbn [negb].
    + apply IH; auto. intros k' Hk'. apply Hall. now right.
    + assert (Hstep : Stream.replay files (ch0 ++ [fileChange TRemove k None])
                      = Some (Table.delete k store0)).
      { apply (replay_snoc files ch0 _ store0); [exact Hr|].
        unfold Stream.applyChange. simpl.
        now rewrite (Hall k (or_introl eq_refl)). }
      destruct (IH _ _ Hnd' (fun k' Hk' => eq_trans
                  (f_equal (fun o => match o with Some _ => true | None => false end)
                     (get_delete_other k k' store0
                        (fun Heq => Hnotin (eq_ind_r (fun x => In x ks) Hk' Heq))))
                  (Hall k' (or_intror Hk'))) Hstep) as [Hr2 Hw2].
      split; [exact Hr2|]. intro Hw. apply Hw2. now apply wf_delete.
Qed.

Lemma diffTable_replay decode (o : option (Table.t string)) ch0 store0 files :
  Table.wf store0 ->
  Stream.replay files ch0 = Some store0 ->
  Stream.replay files (fst (diffTable decode o (ch0, store0)))
  = Some (snd (diffTable decode o (ch0, store0)))
  /\ Table.wf (snd (diffTable decode o (ch0, store0))).
Proof.
  intros Hw Hr. unfold diffTable.
  destruct o as [tbl|]; [|auto].
  destruct (0 <? List.length (Table.keys tbl))%nat; [|auto].
  destruct (sync_replay decode tbl ch0 store0 files Hr) as [Hr1 Hw1].
  destruct (fold_left (syncEntry decode) tbl (ch0, store0)) as [ch1 store1].
  simpl in *.
  assert (Hnd : NoDup (Table.keys store1)) by (apply Hw1, Hw).
  assert (Hall : forall k, In k (Table.keys store1) -> Table.has k store1 = true)
    by (intros k Hk; now apply has_keys).
  destruct (prune_replay tbl (Table.keys store1) ch1 store1 files Hnd Hall Hr1)
    as [Hr2 Hw2].
  auto.
Qed.

Lemma diffTable_replay_acc decode (o : option (Table.t string))
    (acc : list ConfigFileChange * FileStore) files :
  Table.wf (snd acc) ->
  Stream.replay files (fst acc) = Some (snd acc) ->
  Stream.replay files (fst (diffTable decode o acc))
  = Some (snd (diffTable decode o acc))
  /\ Table.wf (snd (diffTable decode o acc)).
Proof. destruct acc as [ch0 store0]. apply diffTable_replay. Qed.

Lemma removed_replay store :
  Table.wf store ->
  Stream.replay store
    (map (fun filename => fileChange TRemove filename None) (Table.keys store))
  = Some Table.empty.
Proof.
  unfold Table.wf. induction store as [|[k v] rest IH]; intro Hnd; [reflexivity|].
  inversion Hnd as [|? ? Hnotin Hnd']; subst. simpl.
  unfold Stream.applyChange, Table.has. simpl. rewrite String.eqb_refl.
  rewrite delete_absent by now apply get_None_notin.
  now apply IH.
Qed.

Lemma onWatchEvent_replay (event : WatchEvent) store :
  Table.wf store ->
  Stream.replay store (fst (onWatchEvent base64Decode event store))
  = Some (snd (onWatchEvent base64Decode event store))
  /\ Table.wf (snd (onWatchEvent base64Decode event store)).
Proof.
  intro Hw. unfold onWatchEvent.
  assert (Ham : Stream.replay store
                  (fst (addedModifiedConfigMap base64Decode event store))
                = Some (snd (addedModifiedConfigMap base64Decode event store))
                /\ Table.wf (snd (addedModifiedConfigMap base64Decode event store))).
  { unfold addedModifiedConfigMap. cbv zeta.
    destruct (diffTable_replay_acc (fun s => s)
                (match apiObj event with Some o => data o | None => None end)
                ([], store) store Hw eq_refl) as [Hr1 Hw1].
    now apply diffTable_replay_acc. }
  destruct (phase event); simpl; auto.
  split; [now apply removed_replay | constructor].
Qed.

Lemma configMapStream_replay (events : list WatchEvent) store :
  Table.wf store ->
  Stream.replay store (fst (Stream.configMapStream base64Decode events store))
  = Some (snd (Stream.configMapStream base64Decode events store)).
Proof.
  revert store. induction events as [|event rest IH]; intros store Hw;
    [reflexivity|].
  simpl. destruct (onWatchEvent_replay event store Hw) as [Hr1 Hw1].
  destruct (onWatchEvent base64Decode event store) as [changes store1].
  specialize (IH store1 Hw1).
  destruct (Stream.configMapStream base64Decode rest store1) as [later store2].
  simpl in *. now rewrite replay_app, Hr1.
Qed.

(** X10. Whatever watch events the ConfigMap driver has handled since it
    started with an empty store, a subscriber that replays its
    notifications in order rebuilds exactly the driver's store, and no
    notification breaks the protocol: an [add] never names a filename
    already announced and not removed since, an [update] always brings a
    content other than the last one announced, a [remove] always names an
    announced filename, and [content] is null exactly for [remove]. *)
Theorem configmap_stream_mirrors_store (events : list WatchEvent) :
  Stream.replay Table.empty
    (fst (Stream.configMapStream base64Decode events Table.empty))
  = Some (snd (Stream.configMapStream base64Decode events Table.empty)).
Proof.
  apply configMapStream_replay. constructor.
Qed.

Lemma onSettled_replay (input : FileDriver.Settled) store :
  match fst (FileDriver.onSettled input store) with
  | Some c => Stream.applyChange store c
              = Some (snd (FileDriver.onSettled input store))
  | None => snd (FileDriver.onSettled input store) = store
  end.
Proof.
  destruct input as [[fname fcontent] | basename]; simpl.
  - unfold FileDriver.addedModifiedConfigFile. simpl.
    destruct (Table.has fname store) eqn:Eh; simpl.
    + unfold Table.has in Eh.
      destruct (Table.get fname store) as [o|] eqn:Eg; [|discriminate]. simpl.
      destruct (o =? fcontent) eqn:Eo; simpl; [reflexivity|].
      unfold Stream.applyChange. simpl. now rewrite Eg, Eo.
    + unfold Stream.applyChange. simpl. now rewrite Eh.
  - unfold FileDriver.removedConfigFile.
    destruct (Table.has basename store) eqn:Eh; simpl; [|reflexivity].
    unfold Stream.applyChange. simpl. now rewrite Eh.
Qed.

Lemma fileStream_replay (inputs : list FileDriver.Settled) store :
  Stream.replay store (fst (FileDriver.fileStream inputs store))
  = Some (snd (FileDriver.fileStream inputs store)).
Proof.
  revert store. induction inputs as [|input rest IH]; intro store; [reflexivity|].
  simpl. pose proof (onSettled_replay input store) as Hstep.
  destruct (FileDriver.onSettled input store) as [change store1].
  specialize (IH store1).
  destruct (FileDriver.fileStream rest store1) as [later store2].
  simpl in *. destruct change as [c|]; simpl.
  - now rewrite Hstep.
  - now rewrite <- Hstep.
Qed.

(** X11. The same holds for the file-system driver, for every sequence
    of files read after an [add] or [change] event and of [unlink] events,
    in whatever order they reach it: replaying its notifications from
    nothing rebuilds its store, and no notification breaks the protocol. *)
Theorem file_stream_mirrors_store (inputs : list FileDriver.Settled) :
  Stream.replay Table.empty (fst (FileDriver.fileStream inputs Table.empty))
  = Some (snd (FileDriver.fileStream inputs Table.empty)).
Proof. apply fileStream_replay. Qed.

(** X12. After the file-system driver has handled a file read, its store
    holds that content for the file, and the same content read again gives
    no notification and leaves the store alone; an [unlink] handled a
    second time gives no notification either. *)
Theorem repeated_input_is_silent (cfgFile : FileDriver.ConfigFile)
    (basename : string) store :
  let store1 := snd (FileDriver.addedModifiedConfigFile cfgFile store) in
  let store2 := snd (FileDriver.removedConfigFile basename store) in
  Table.get (FileDriver.filename cfgFile) store1
  = Some (FileDriver.content cfgFile)
  /\ FileDriver.addedModifiedConfigFile cfgFile store1 = (None, store1)
  /\ Table.get basename store2 = None
  /\ FileDriver.removedConfigFile basename store2 = (None, store2).
Proof.
  intros store1 store2.
  assert (H1 : Table.get (FileDriver.filename cfgFile) store1
               = Some (FileDriver.content cfgFile)).
  { unfold store1, FileDriver.addedModifiedConfigFile, Table.has.
    destruct (Table.get (FileDriver.filename cfgFile) store) as [o|] eqn:Eg; simpl.
    - destruct (o =? FileDriver.content cfgFile) eqn:Eo; simpl.
      + apply String.eqb_eq in Eo. now subst o.
      + apply get_set_same.
    - apply get_set_same. }
  assert (H2 : Table.get basename store2 = None).
  { unfold store2, FileDriver.removedConfigFile, Table.has.
    destruct (Table.get basename store) eqn:Eg; simpl;
      [apply get_delete_same | exact Eg]. }
  split; [exact H1|]. split; [|split; [exact H2|]].
  - unfold FileDriver.addedModifiedConfigFile at 1. unfold Table.has.
    rewrite H1. simpl. now rewrite String.eqb_refl.
  - unfold FileDriver.removedConfigFile at 1. unfold Table.has. now rewrite H2.
Qed.

Lemma changesFor_removes f (ks : list string) :
  NoDup ks ->
  changesFor f (map (fun filename => fileChange TRemove filename None) ks)
  = if existsb (String.eqb f) ks then [fileChange TRemove f None] else [].
Proof.
  induction ks as [|k ks IH]; intro Hnd; [reflexivity|].
  inversion Hnd as [|? ? Hnotin Hnd']; subst. simpl.
  unfold changesFor in *. simpl. rewrite (String.eqb_sym f k).
  destruct (k =? f) eqn:E; simpl.
  - apply String.eqb_eq in E. subst k. rewrite IH by exact Hnd'.
    destruct (existsb (String.eqb f) ks) eqn:Ex; [|reflexivity].
    apply existsb_exists in Ex. destruct Ex as [x [Hx Ex]].
    apply String.eqb_eq in Ex. subst x. contradiction.
  - now apply IH.
Qed.

(** X13. When the ConfigMap is deleted the driver publishes one [remove]
    for every filename of its store and no other notification, and its
    store is empty afterwards, so that a second DELETED event publishes
    nothing. *)
Theorem deleted_resource_removes_every_file (event : WatchEvent) store :
  phase event = DELETED -> Table.wf store ->
  let result := onWatchEvent base64Decode event store in
  List.length (fst result) = List.length store
  /\ (forall f, changesFor f (fst result)
                = if Table.has f store then [fileChange TRemove f None] else [])
  /\ snd result = Table.empty
  /\ onWatchEvent base64Decode event (snd result) = ([], Table.empty).
Proof.
  intros Hphase Hw result. unfold result, onWatchEvent. rewrite Hphase.
  unfold removedConfigMap. simpl.
  split; [unfold Table.keys; now rewrite !length_map|].
  split; [|auto].
  intro f. rewrite changesFor_removes by exact Hw. now rewrite existsb_keys.
Qed.

Lemma prune_keeps_wf tbl (ks : list string)
    (acc : list ConfigFileChange * FileStore) :
  Table.wf (snd acc) -> Table.wf (snd (fold_left (pruneEntry tbl) ks acc)).
Proof.
  revert acc. induction ks as [|k ks IH]; intros [ch0 store0] Hw; [exact Hw|].
  cbn [fold_left]. apply IH. unfold pruneEntry.
  destruct (Table.has k tbl); simpl; [exact Hw | now apply wf_delete].
Qed.

(** One guarded block run on a table that is not empty, after the changes
    [fst acc] were collected: it adds the diff of the store against the
    table. *)
Lemma diffTable_from decode tbl (acc : list ConfigFileChange * FileStore) :
  Table.wf (snd acc) -> Table.wf tbl -> tbl <> [] ->
  (forall f, changesFor f (fst (diffTable decode (Some tbl) acc))
             = changesFor f (fst acc)
               ++ expectedChanges f (Table.get f (snd acc))
                                  (Table.get f (decoded decode tbl)))
  /\ (forall f, Table.get f (snd (diffTable decode (Some tbl) acc))
                = Table.get f (decoded decode tbl))
  /\ Table.wf (snd (diffTable decode (Some tbl) acc)).
Proof.
  destruct acc as [ch0 store]. simpl fst. simpl snd.
  intros Hws Hwt Hne. unfold diffTable.
  assert (Hguard : (0 <? List.length (Table.keys tbl))%nat = true).
  { destruct tbl; [congruence | reflexivity]. }
  rewrite Hguard.
  destruct (sync_spec base64Decode decode tbl ch0 store Hwt)
    as [Hch1 [Hst1 Hwf1]].
  cbv zeta in Hch1, Hst1, Hwf1.
  set (acc1 := fold_left (syncEntry decode) tbl (ch0, store)) in *.
  pose proof (prune_spec tbl (Table.keys (snd acc1)) (fst acc1) (snd acc1)
                         (Hwf1 Hws)) as Hprune.
  rewrite <- surjective_pairing in Hprune. destruct Hprune as [Hch2 Hst2].
  assert (Hhas : forall f, Table.has f tbl
                 = match Table.get f (decoded decode tbl) with
                   | Some _ => true | None => false end).
  { intro f. unfold Table.has. rewrite get_decoded.
    now destruct (Table.get f tbl). }
  split; [|split].
  - intro f. rewrite Hch2, Hch1, existsb_keys, Hhas. unfold Table.has.
    rewrite Hst1, <- app_assoc. f_equal. unfold synced.
    destruct (Table.get f (decoded decode tbl)) as [c|]; simpl.
    + now rewrite ?andb_false_r, ?app_nil_r.
    + now destruct (Table.get f store).
  - intro f. rewrite Hst2, existsb_keys, Hhas. unfold Table.has. rewrite Hst1.
    destruct (Table.get f (decoded decode tbl)) as [c|]; simpl.
    + now rewrite ?andb_false_r.
    + now destruct (Table.get f store).
  - apply prune_keeps_wf, Hwf1, Hws.
Qed.

(** X14. For an ADDED or MODIFIED event whose snapshot has files in both
    [data] and [binaryData], the notifications about a filename are those
    of the diff of the store against [data] followed by those of the diff
    of [data] against the decoded [binaryData], and the store then holds
    the files of [binaryData] only.  So for a file that only [data] has,
    the notifications of the first diff (an add if the file is new, an
    update if its content changed, none if it is unchanged) are followed by
    a remove, and the file is not in the store afterwards. *)
Theorem both_tables_are_diffed_in_turn (event : WatchEvent) store d b :
  isAddedOrModified (phase event) = true ->
  apiObj event = Some {| data := Some d; binaryData := Some b |} ->
  d <> [] -> b <> [] ->
  Table.wf store -> Table.wf d -> Table.wf b ->
  forall f,
    changesFor f (fst (onWatchEvent base64Decode event store))
    = expectedChanges f (Table.get f store) (Table.get f d)
      ++ expectedChanges f (Table.get f d)
                         (Table.get f (decoded base64Decode b))
    /\ Table.get f (snd (onWatchEvent base64Decode event store))
       = Table.get f (decoded base64Decode b)
    /\ (forall c, Table.get f d = Some c -> Table.get f b = None ->
          changesFor f (fst (onWatchEvent base64Decode event store))
          = expectedChanges f (Table.get f store) (Some c)
            ++ [fileChange TRemove f None]
          /\ Table.get f (snd (onWatchEvent base64Decode event store)) = None).
Proof.
  intros Hphase Hapi Hd Hb Hws Hwd Hwb f.
  assert (Hrun : onWatchEvent base64Decode event store
                 = addedModifiedConfigMap base64Decode event store).
  { unfold onWatchEvent. now destruct (phase event). }
  rewrite Hrun. unfold addedModifiedConfigMap. cbv zeta. rewrite Hapi. simpl.
  destruct (diffTable_from (fun s => s) d ([], store) Hws Hwd Hd)
    as [Hch1 [Hst1 Hw1]].
  destruct (diffTable_from base64Decode b
              (diffTable (fun s => s) (Some d) ([], store)) Hw1 Hwb Hb)
    as [Hch2 [Hst2 _]].
  rewrite Hch2, Hst2, Hch1, Hst1, decoded_id.
  split; [reflexivity|]. split; [reflexivity|].
  intros c Hfd Hfb. rewrite get_decoded, Hfd, Hfb. simpl. auto.
Qed.

Lemma expected_same f (o : option string) : expectedChanges f o o = [].
Proof.
  destruct o as [c|]; simpl; [now rewrite String.eqb_refl | reflexivity].
Qed.

Lemma changes_nil ch : (forall f, changesFor f ch = []) -> ch = [].
Proof.
  destruct ch as [|c rest]; [reflexivity|]. intro Hall.
  specialize (Hall (change_filename c)). unfold changesFor in Hall.
  simpl in Hall. rewrite String.eqb_refl in Hall. discriminate.
Qed.

Lemma oneTable_run (event : WatchEvent) :
  isAddedOrModified (phase event) = true ->
  usesOneTable event = true ->
  Table.wf (snapshotOf base64Decode event) ->
  exists decode tbl,
    (forall store, onWatchEvent base64Decode event store
                   = diffTable decode (Some tbl) ([], store))
    /\ snapshotOf base64Decode event = decoded decode tbl
    /\ Table.wf tbl /\ tbl <> [].
Proof.
  intros Hphase Hone Hwsnap.
  assert (Hrun : forall store, onWatchEvent base64Decode event store
                 = addedModifiedConfigMap base64Decode event store).
  { intro store. unfold onWatchEvent. now destruct (phase event). }
  unfold addedModifiedConfigMap, usesOneTable, snapshotOf in *.
  destruct (apiObj event) as [o|]; [|discriminate].
  destruct (isEmptyTable (data o)) eqn:Ed, (isEmptyTable (binaryData o)) eqn:Eb;
    try discriminate.
  - assert (Hd : tableOf (data o) = []) by (now destruct (data o) as [[|? ?]|]).
    rewrite Hd in *. simpl app in *.
    destruct (binaryData o) as [tbl|]; [|discriminate]. simpl tableOf in *.
    exists base64Decode, tbl. split; [|split; [reflexivity|split]].
    + intro store. rewrite Hrun. now rewrite (diffTable_empty _ (data o) _ Ed).
    + unfold Table.wf in *. now rewrite keys_decoded in Hwsnap.
    + intros ->. discriminate.
  - assert (Hb : tableOf (binaryData o) = [])
      by (now destruct (binaryData o) as [[|? ?]|]).
    rewrite Hb in *. simpl decoded in *. rewrite app_nil_r in *.
    destruct (data o) as [tbl|]; [|discriminate]. simpl tableOf in *.
    exists (fun s => s), tbl. split; [|split; [now rewrite decoded_id|split]].
    + intro store. rewrite Hrun. now rewrite (diffTable_empty _ (binaryData o) _ Eb).
    + exact Hwsnap.
    + intros ->. discriminate.
Qed.

(** X15. An ADDED or MODIFIED event whose snapshot keeps its files in
    exactly one of [data] and [binaryData], delivered a second time right
    after the first, publishes no notification at all and leaves every
    filename of the store with its content. *)
Theorem redelivered_snapshot_is_silent (event : WatchEvent) store :
  isAddedOrModified (phase event) = true ->
  usesOneTable event = true ->
  Table.wf store ->
  Table.wf (snapshotOf base64Decode event) ->
  let store1 := snd (onWatchEvent base64Decode event store) in
  fst (onWatchEvent base64Decode event store1) = []
  /\ forall f, Table.get f (snd (onWatchEvent base64Decode event store1))
               = Table.get f store1.
Proof.
  intros Hphase Hone Hws Hwsnap store1.
  destruct (oneTable_run event Hphase Hone Hwsnap)
    as [decode [tbl [Hrun [_ [Hwt Hne]]]]].
  unfold store1. rewrite !Hrun.
  destruct (diffTable_from decode tbl ([], store) Hws Hwt Hne)
    as [_ [Hst1 Hw1]].
  destruct (diffTable_from decode tbl
              ([], snd (diffTable decode (Some tbl) ([], store))) Hw1 Hwt Hne)
    as [Hch2 [Hst2 _]].
  simpl fst in Hch2. simpl snd in Hch2, Hst2. split.
  - apply changes_nil. intro f. rewrite Hch2, Hst1. simpl. apply expected_same.
  - intro f. now rewrite Hst2, Hst1.
Qed.

End DriverExtras.

(** ** Provenance of entries and the shape of every trace *)

Section MoreEngineExtras.

Context {T : Type} `{Item T}.
Implicit Types (s st : State T) (k F : string) (data : list T)
               (evs : list (FileEvent T)).

Lemma provenance_invariant evs :
  let st := stateAfter (processAll evs) (Table.empty : State T) in
  wfState st
  /\ forall k e, Table.get k st = Some e ->
       exists data, In (Validated (filename e) data) evs /\ In (obj e) data.
Proof.
  induction evs as [|ev evs IH] using rev_ind.
  - simpl. split; [apply wfState_empty | discriminate].
  - destruct IH as [Hwf Hinv]. cbv zeta. rewrite processAll_snoc.
    set (st := stateAfter (processAll evs) Table.empty) in *.
    split; [now apply wfState_reconcile|].
    assert (Hold : forall F k e,
              match Table.get k st with
              | Some e0 => if negb (k =? "") && (filename e0 =? F)
                           then None else Some e0
              | None => None
              end = Some e ->
              exists data, In (Validated (filename e) data) (evs ++ [ev])
                           /\ In (obj e) data).
    { intros F k e Hm.
      destruct (Table.get k st) as [e0|] eqn:Eg; [|discriminate].
      destruct (negb (k =? "") && (filename e0 =? F)); [discriminate|].
      injection Hm as ->. destruct (Hinv k e Eg) as [data [Hev Hin]].
      exists data. split; [apply in_or_app; now left | exact Hin]. }
    intros k e Hg. destruct ev as [F data | F].
    + rewrite validated_state in Hg.
      destruct (in_dec string_dec k (map getId data)) as [Hd | Hd].
      * destruct (update_state_declared st F data k Hwf Hd) as [n [Hn [_ Hg']]].
        rewrite Hg' in Hg. injection Hg as <-. simpl.
        exists data. split; [apply in_or_app; right; now left | exact Hn].
      * rewrite update_state_undeclared in Hg by assumption.
        now apply (Hold F k e).
    + rewrite removed_state, remove_state in Hg by assumption.
      now apply (Hold F k e).
Qed.

(** X16. Whatever validated file events were processed since the empty
    state, every entry of the state comes from one of them: the event of
    the file the entry is filed under carried the entry's payload in its
    list, and the entry is stored under the identity of that payload. *)
Theorem every_entry_was_declared evs k (e : ConfigSet T) :
  Table.get k (stateAfter (processAll evs) Table.empty) = Some e ->
  getId (obj e) = k
  /\ exists data, In (Validated (filename e) data) evs /\ In (obj e) data.
Proof.
  intro Hg. destruct (provenance_invariant evs) as [Hwf Hinv].
  split; [now apply (wfState_get _ k e Hwf) | now apply (Hinv k)].
Qed.

Lemma published_forEach (acts : list (ConfigSetAction T)) s :
  publishedInOrder s (traceOf (forEach tap acts) s).
Proof.
  revert s. induction acts as [|a acts IH]; intro s; [exact I|].
  destruct (forEach_cons tap a acts s) as [_ ->].
  rewrite stateAfter_tap.
  assert (Hrun : (traceOf (tap a) s = [StateNext (mutationOf a s); ChangesNext a]
                  /\ commit a s = mutationOf a s)
                 \/ (exists id, a = Remove id
                       /\ traceOf (tap a) s = [ChangesNext a]
                       /\ commit a s = s
                       /\ (id = "" \/ Table.get id s = None))).
  { unfold traceOf. destruct a as [id item | id item | id | id item].
    - left. now rewrite (tap_set_run (Add id item) item) by auto.
    - left. now rewrite (tap_set_run (Update id item) item) by auto.
    - rewrite tap_remove_run. simpl.
      destruct (id =? "") eqn:Ei.
      + apply String.eqb_eq in Ei. right. exists id. auto.
      + destruct (Obj.truthy (Obj.read id s)) eqn:Et; [left; auto|].
        apply truthy_read in Et. destruct Et as [Eg _].
        right. exists id. repeat split; auto. now apply delete_absent.
    - left. now rewrite (tap_set_run (Moved id item) item) by auto. }
  destruct Hrun as [[-> Hc] | [id [-> [-> [Hc Hlone]]]]]; simpl.
  - split; [reflexivity|]. rewrite <- Hc. apply IH.
  - split; [exact Hlone|]. simpl in Hc. rewrite Hc. apply IH.
Qed.

Context `{Pipeline T}.

(** X17. For every notification and every state, with no condition on
    either: a state is published on [state$] only right before an action
    is published on [changes$], and it is the state the mutation of that
    action makes; an action published with no state before it is a
    [Remove] whose identity is empty or not held, and the state stays as
    it is. *)
Theorem no_mutation_without_action (fc : ConfigFileChange) st :
  publishedInOrder st (traceOf (onFileChange fc) st).
Proof.
  unfold traceOf, onFileChange.
  destruct (isRemove (change_type fc)).
  - rewrite reconcile_removed. apply published_forEach.
  - destruct (validateConfigFile fc) as [F data | F err]; [|exact I].
    rewrite reconcile_validated. apply published_forEach.
Qed.

(** X18. [validateConfigFile] yields the error variant exactly in these
    cases, always with the filename of the notification: the content does
    not trim to the empty string and either [yaml.loadAll] throws, and the
    error is the one it throws, or it returns a list with an item that
    fails the validator, and the error is the formatting error that names
    the file. *)
Theorem rejected_result_carries_cause (fc : ConfigFileChange) F err :
  validateConfigFile fc = Invalid F err
  <-> F = change_filename fc
      /\ exists c, change_content fc = Some c /\ trim c <> ""
         /\ (loadAll c = inl err
             \/ exists data, loadAll c = inr data
                  /\ (exists n, In n data /\ validate n = false)
                  /\ err = formattingError F).
Proof.
  unfold validateConfigFile, isBlank.
  destruct (change_content fc) as [c|].
  - destruct (trim c =? "") eqn:Et.
    + apply String.eqb_eq in Et. simpl. split; [discriminate|].
      intros [_ [c' [[= <-] [Hne _]]]]. contradiction.
    + apply String.eqb_neq in Et.
      destruct (loadAll c) as [e | parsed] eqn:El.
      * split.
        -- intros [= <- <-]. split; [reflexivity|]. exists c. auto.
        -- intros [-> [c' [[= <-] [_ [Hl | [d [Hl _]]]]]]];
             rewrite El in Hl; [now injection Hl as -> | discriminate].
      * destruct (validateItems (change_filename fc) parsed) as [e|] eqn:Ev.
        -- assert (Hbad : exists n, In n parsed /\ validate n = false).
           { clear El. induction parsed as [|x rest IH]; simpl in Ev; [discriminate|].
             destruct (validate x) eqn:Ex.
             - destruct (IH Ev) as [n [Hn Hv]]. exists n. split; [now right | exact Hv].
             - exists x. split; [now left | exact Ex]. }
           rewrite (validateItems_invalid _ parsed Hbad) in Ev. injection Ev as <-.
           split.
           ++ intros [= <- <-]. split; [reflexivity|]. exists c.
              split; [reflexivity|]. split; [exact Et|]. right.
              exists parsed. auto.
           ++ intros [-> [c' [[= <-] [_ [Hl | [d [Hl [_ ->]]]]]]]];
                rewrite El in Hl; [discriminate | reflexivity].
        -- split; [discriminate|].
           intros [_ [c' [[= <-] [_ [Hl | [d [Hl [Hbad _]]]]]]]];
             rewrite El in Hl; [discriminate|].
           injection Hl as <-.
           rewrite (validateItems_invalid _ parsed Hbad) in Ev. discriminate.
  - simpl. split; [discriminate|]. intros [_ [c [Hc _]]]. discriminate.
Qed.

End MoreEngineExtras.

(** ** The further properties at concrete inputs *)

Module ExtraScenarios.

Import Sample Cases.

Lemma threeFiles_wf : Table.wf threeFiles.
Proof.
  unfold Table.wf. simpl. repeat constructor; simpl; intuition discriminate.
Qed.

Lemma published_actions_are_justified_witness :
  ((exists e, Table.get "x" twoFiles = Some e /\ obj e <> doc "x" 2)
   \/ (Table.get "x" twoFiles = None /\ Obj.inherited "x" = true))
  /\ "a.yaml" = "a.yaml" /\ In (doc "x" 2) [doc "x" 2]
  /\ getId (doc "x" 2) = "x".
Proof.
  apply (published_actions_are_justified twoFiles "a.yaml" [doc "x" 2]
           (Update "x" {| filename := "a.yaml"; obj := doc "x" 2 |})).
  - exact Scenarios.twoFiles_wf.
  - simpl. now left.
Defined.

Lemma state_after_validated_list_witness :
  let st' := stateAfter (reconcile (Validated "a.yaml" [doc "z" 3])) twoFiles in
  (forall k, In k (map getId [doc "z" 3]) ->
     exists n, In n [doc "z" 3] /\ getId n = k
               /\ Table.get k st' = Some {| filename := "a.yaml"; obj := n |})
  /\ (forall k, ~ In k (map getId [doc "z" 3]) ->
        Table.get k st'
        = match Table.get k twoFiles with
          | Some e => if negb (k =? "") && (filename e =? "a.yaml")
                      then None else Some e
          | None => None
          end).
Proof.
  apply (state_after_validated_list twoFiles "a.yaml" [doc "z" 3]).
  exact Scenarios.twoFiles_wf.
Defined.

Lemma state_after_file_removal_witness :
  Table.get "x" (stateAfter (reconcile (Removed "a.yaml")) twoFiles) = None
  /\ Table.get "y" (stateAfter (reconcile (Removed "a.yaml")) twoFiles)
     = Some {| filename := "b.yaml"; obj := doc "y" 7 |}.
Proof.
  split.
  - apply (state_after_file_removal twoFiles "a.yaml" "x").
    exact Scenarios.twoFiles_wf.
  - apply (state_after_file_removal twoFiles "a.yaml" "y").
    exact Scenarios.twoFiles_wf.
Defined.

Lemma blank_content_acts_as_removal_witness :
  onFileChange blankUpdate twoFiles = reconcile (Removed "a.yaml") twoFiles.
Proof.
  apply (blank_content_acts_as_removal blankUpdate twoFiles); reflexivity.
Defined.

Lemma every_entry_was_declared_witness :
  getId (doc "y" 7) = "y"
  /\ exists data, In (Validated "c.yaml" data) moveScenario
                  /\ In (doc "y" 7) data.
Proof.
  apply (every_entry_was_declared moveScenario "y"
           {| filename := "c.yaml"; obj := doc "y" 7 |}).
  reflexivity.
Defined.

Lemma deleted_resource_removes_every_file_witness :
  let result := Driver.onWatchEvent (fun s => s) deleted threeFiles in
  List.length (fst result) = List.length threeFiles
  /\ (forall f, Driver.changesFor f (fst result)
                = if Table.has f threeFiles
                  then [Driver.fileChange TRemove f None] else [])
  /\ snd result = Table.empty
  /\ Driver.onWatchEvent (fun s => s) deleted (snd result) = ([], Table.empty).
Proof.
  apply (deleted_resource_removes_every_file (fun s => s) deleted threeFiles).
  - reflexivity.
  - exact threeFiles_wf.
Defined.

Lemma both_tables_are_diffed_in_turn_witness :
  let result := Driver.onWatchEvent (fun s => s) inBoth threeFiles in
  fst result = [Driver.fileChange TAdd "e" (Some "5");
                Driver.fileChange TRemove "b" None;
                Driver.fileChange TRemove "c" None;
                Driver.fileChange TAdd "b" (Some "Mg==");
                Driver.fileChange TRemove "a" None;
                Driver.fileChange TRemove "e" None]
  /\ (Driver.changesFor "e" (fst result)
      = Driver.expectedChanges "e" (Table.get "e" threeFiles)
          (Table.get "e" [("a", "1"); ("e", "5")])
        ++ Driver.expectedChanges "e" (Table.get "e" [("a", "1"); ("e", "5")])
             (Table.get "e" (Driver.decoded (fun s => s) [("b", "Mg==")]))
      /\ Table.get "e" (snd result)
         = Table.get "e" (Driver.decoded (fun s => s) [("b", "Mg==")])
      /\ (forall c, Table.get "e" [("a", "1"); ("e", "5")] = Some c ->
            Table.get "e" [("b", "Mg==")] = None ->
            Driver.changesFor "e" (fst result)
            = Driver.expectedChanges "e" (Table.get "e" threeFiles) (Some c)
              ++ [Driver.fileChange TRemove "e" None]
            /\ Table.get "e" (snd result) = None)).
Proof.
  split; [reflexivity|].
  apply (both_tables_are_diffed_in_turn (fun s => s) inBoth threeFiles
           [("a", "1"); ("e", "5")] [("b", "Mg==")]).
  - reflexivity.
  - reflexivity.
  - discriminate.
  - discriminate.
  - exact threeFiles_wf.
  - unfold Table.wf. simpl. repeat constructor; simpl; intuition discriminate.
  - unfold Table.wf. simpl. repeat constructor; simpl; tauto.
Defined.

Lemma redelivered_snapshot_is_silent_witness :
  let store1 := snd (Driver.onWatchEvent (fun s => s) inData threeFiles) in
  fst (Driver.onWatchEvent (fun s => s) inData store1) = []
  /\ forall f, Table.get f (snd (Driver.onWatchEvent (fun s => s) inData store1))
               = Table.get f store1.
Proof.
  apply (redelivered_snapshot_is_silent (fun s => s) inData threeFiles).
  - reflexivity.
  - reflexivity.
  - exact threeFiles_wf.
  - unfold Table.wf. simpl. repeat constructor; simpl; intuition discriminate.
Defined.

End ExtraScenarios.

(** ** The enumeration order of the state *)

Section StateOrder.

Context {T : Type} `{Item T}.

Lemma before_above (k k0 k' : string) :
  Obj.before k k0 = true -> Obj.before k' k0 = false -> Obj.before k' k = false.
Proof.
  unfold Obj.before.
  destruct (Obj.arrayIndex k) as [n|]; [|discriminate].
  destruct (Obj.arrayIndex k0) as [n0|], (Obj.arrayIndex k') as [n'|];
    try discriminate; auto.
  intros H1 H2. apply N.ltb_lt in H1. apply N.ltb_ge in H2.
  apply N.ltb_ge. lia.
Qed.

Lemma before_asym (k k0 : string) :
  Obj.before k k0 = true -> Obj.before k0 k = false.
Proof.
  unfold Obj.before.
  destruct (Obj.arrayIndex k) as [n|], (Obj.arrayIndex k0) as [n0|];
    try discriminate; auto.
  intro H1. apply N.ltb_lt in H1. apply N.ltb_ge. lia.
Qed.

Lemma ordered_set {V} k (v : V) (o : Table.t V) :
  Obj.ordered (Table.keys o) -> Obj.ordered (Table.keys (Obj.set k v o)).
Proof.
  induction o as [|[k0 v0] rest IH]; simpl.
  - intros _. split; [intros k' [] | exact I].
  - intros [Hhead Hrest]. destruct (k0 =? k) eqn:E; simpl.
    + apply String.eqb_eq in E. subst k0. auto.
    + destruct (Obj.before k k0 && negb (Table.has k rest)) eqn:Eb; simpl.
      * apply andb_true_iff in Eb. destruct Eb as [Eb _].
        split; [|auto].
        intros k' [<- | Hin]; [now apply before_asym|].
        apply (before_above k k0 k' Eb). now apply Hhead.
      * split; [|now apply IH].
        intros k' Hin. apply obj_keys_set in Hin.
        destruct Hin as [-> | Hin]; [|now apply Hhead].
        apply andb_false_iff in Eb. destruct Eb as [Eb | Eb]; [exact Eb|].
        apply negb_false_iff in Eb. apply Hhead. now apply has_keys.
Qed.

Lemma ordered_delete {V} k (o : Table.t V) :
  Obj.ordered (Table.keys o) -> Obj.ordered (Table.keys (Table.delete k o)).
Proof.
  induction o as [|[k0 v0] rest IH]; simpl; [auto|].
  intros [Hhead Hrest]. destruct (k0 =? k); simpl; [now apply IH|].
  split; [|now apply IH].
  intros k' Hin. apply Hhead. unfold Table.keys in *.
  apply in_map_iff in Hin. destruct Hin as [p [Hp Hin]].
  apply In_delete in Hin. apply in_map_iff. exists p. tauto.
Qed.

Lemma ordered_commitAll (acts : list (ConfigSetAction T)) (s : State T) :
  Obj.ordered (Table.keys s) -> Obj.ordered (Table.keys (commitAll acts s)).
Proof.
  revert s. induction acts as [|a acts IH]; intros s Ho; [exact Ho|].
  simpl. apply IH.
  destruct a as [id item | id item | id | id item]; simpl;
    try (now apply ordered_set).
  destruct (id =? ""); [exact Ho | now apply ordered_delete].
Qed.

Context `{Pipeline T}.

Lemma ordered_notifications (fcs : list ConfigFileChange) (st : State T) :
  Obj.ordered (Table.keys st) ->
  Obj.ordered (Table.keys (stateAfter (forEach onFileChange fcs) st)).
Proof.
  revert st. induction fcs as [|fc fcs IH]; intros st Ho; [exact Ho|].
  destruct (forEach_cons onFileChange fc fcs st) as [-> _].
  apply IH. unfold onFileChange.
  destruct (isRemove (change_type fc)).
  - rewrite removed_state. now apply ordered_commitAll.
  - destruct (validateConfigFile fc) as [F data | F err]; [|exact Ho].
    rewrite validated_state. now apply ordered_commitAll.
Qed.

(** X20. Whatever notifications the engine has processed since it
    started with the empty state, the entries of the state are enumerated
    the way [Object.values] enumerates a plain object: no identity that is
    an array index comes after an identity that is not one, or after a
    larger array index. *)
Theorem reachable_states_are_enumerated_in_order (fcs : list ConfigFileChange) :
  Obj.ordered
    (Table.keys (stateAfter (forEach onFileChange fcs) (Table.empty : State T))).
Proof. apply ordered_notifications. exact I. Qed.

End StateOrder.
